(** * A model of [PDFProcessor] (src/pdf-processor.ts) of pdf-splitter-mcp

    The processor keeps a registry [loadedPDFs : Map<string, LoadedPDF>]
    and answers page, range, search, image and rendering requests from it.
    The model follows the TypeScript source:
    - JS page numbers and counts are [Z]; page texts are Rocq strings
      (characters are 8-bit [ascii] read as Latin-1, U+0000..U+00FF, and
      case mapping is the one JS applies to that range);
    - the registry [Map] is a [gmap string LoadedPDF];
    - a thrown [Error] is the [Err] branch of [result], with one
      constructor per message the methods throw;
    - the collaborators the code awaits (fetch, readFile, pdfjs'
      getDocument, getPage, getTextContent, getOutline, render, ...) are
      fields of records whose [None] answers stand for a rejected promise. *)

From Stdlib Require Import QArith Qround Qabs Lqa Ascii String.
From stdpp Require Import base gmap strings list pretty.

Local Open Scope string_scope.
Local Open Scope list_scope.
Local Set Warnings "-register-all".


(* ------------------------------------------------------------------ *)
(** ** Strings *)

Definition nl : string := String "010"%char EmptyString.

(** [Array.prototype.join(sep)] *)
Fixpoint join (sep : string) (l : list string) : string :=
  match l with
  | [] => ""
  | [x] => x
  | x :: xs => x +:+ sep +:+ join sep xs
  end.

(** [s || ""] for an array element [s] that may be [undefined]. *)
Definition or_empty (o : option string) : string :=
  match o with
  | Some s => if String.eqb s "" then "" else s
  | None => ""
  end.

(** [s.startsWith(p)] *)
Definition startsWith (s p : string) : bool := String.prefix p s.

(* ------------------------------------------------------------------ *)
(** ** Data model (the interfaces of pdf-processor.ts) *)

Inductive OutlineItem :=
  mkOutlineItem (title : string) (page : option Z) (level : Z)
                (children : option (list OutlineItem)).

(** [metadata: any] holds the [info] dictionary of the document. *)
Definition Info := list (string * string).

Record LoadedPDF := mkLoadedPDF {
  id : string;
  path : string;
  pageCount : Z;
  pages : list string;
  metadata : option Info;
  outline : option (list OutlineItem)
}.

Record SearchMatch := mkSearchMatch { m_text : string; m_context : string }.
Record SearchResult := mkSearchResult { sr_page : Z; sr_matches : list SearchMatch }.

(** Why the failing loads fail: the message wrapped by
    ["Failed to load PDF: ..."]. *)
Inductive LoadFailure :=
| FetchRejected            (* fetch(path) or arrayBuffer() rejects *)
| FetchNotOk               (* "Failed to fetch PDF from URL: <status>" *)
| ReadFileRejected         (* readFile(path) rejects *)
| ParseRejected.           (* pdfjsLib.getDocument(...).promise rejects *)

(** The errors the processor throws. *)
Inductive PdfError :=
| PDFNotFound                    (* "PDF not found. Please load it first." *)
| InvalidPageNumber (n : Z)      (* "Invalid page number. PDF has n pages." *)
| InvalidPageRange (n : Z)       (* "Invalid page range. PDF has n pages." *)
| InvalidRegex (query : string)  (* "Invalid regular expression: query" *)
| FailedToLoad (why : LoadFailure)
| DocumentRejected.              (* a rejected getPage/getOperatorList/render *)

Inductive result (A : Type) := Ok (a : A) | Err (e : PdfError).
Arguments Ok {A} a.
Arguments Err {A} e.

Abbreviation Registry := (gmap string LoadedPDF).

(* ------------------------------------------------------------------ *)
(** ** extractPage and extractRange *)

Definition extractPage (loadedPDFs : Registry) (pdfId : string)
    (pageNumber : Z) : result string :=
  match loadedPDFs !! pdfId with
  | None => Err PDFNotFound
  | Some pdf =>
      if (pageNumber <? 1)%Z || (pageCount pdf <? pageNumber)%Z
      then Err (InvalidPageNumber (pageCount pdf))
      else Ok (or_empty (pages pdf !! Z.to_nat (pageNumber - 1)))
  end.

(** The integers [a, a+1, ..., b] visited by [for (let i = a; i <= b; i++)]. *)
Definition Z_range (a b : Z) : list Z :=
  map (fun k => (a + Z.of_nat k)%Z) (seq 0 (Z.to_nat (b - a + 1))).

(** The marker of the template [`--- Page ${i} ---\n${text}`]. *)
Definition page_marker (i : Z) : string := "--- Page " +:+ pretty i +:+ " ---".

Definition range_block (pdf : LoadedPDF) (i : Z) : string :=
  page_marker i +:+ nl +:+ or_empty (pages pdf !! Z.to_nat (i - 1)).

Definition extractRange (loadedPDFs : Registry) (pdfId : string)
    (startPage endPage : Z) : result string :=
  match loadedPDFs !! pdfId with
  | None => Err PDFNotFound
  | Some pdf =>
      if (startPage <? 1)%Z || (pageCount pdf <? endPage)%Z
         || (endPage <? startPage)%Z
      then Err (InvalidPageRange (pageCount pdf))
      else Ok (join (nl +:+ nl) (map (range_block pdf) (Z_range startPage endPage)))
  end.

(** The shape every record that [loadPDF] stores has: one text per page. *)
Definition wf_pdf (pdf : LoadedPDF) : Prop :=
  (0 <= pageCount pdf)%Z /\ length (pages pdf) = Z.to_nat (pageCount pdf).

(* ------------------------------------------------------------------ *)
(** ** The document layer [loadPDF] awaits (pdfjs-dist) *)

(** An element of [textContent.items]: a [TextItem] (it has a [str] and
    the vertical offset [transform[5]]) or a marked-content item. *)
Inductive TextContentItem :=
| TextItem (str : string) (y : Q)
| MarkedContent.

(** The first element [dest[0]] of an explicit destination: a page
    reference [{num, gen}] or anything else. *)
Inductive DestEntry :=
| DestRef (num gen : Z)
| DestOther.

(** [item.dest]: a named destination or an explicit destination array. *)
Inductive RawDest :=
| DestNamed (name : string)
| DestExplicit (d : list DestEntry).

(** An entry of [doc.getOutline()]: [title], [dest] and [items]. *)
Inductive RawOutlineItem :=
  RawItem (title : string) (dest : option RawDest) (items : list RawOutlineItem).

(** A page proxy: its reference [(page as any).ref] and the answer of
    [page.getTextContent()] ([None]: rejected). *)
Record PDFPage := mkPDFPage {
  page_ref : option (Z * Z);
  page_textContent : option (list TextContentItem)
}.

(** A document proxy; [None] answers are rejected promises. *)
Record PDFDocument := mkPDFDocument {
  numPages : nat;
  getPage : nat -> option PDFPage;
  getMetadata : option (option Info);          (* Some None: no [info] *)
  getOutline : option (list RawOutlineItem);
  getDestination : string -> option (option (list DestEntry))
}.

(** The I/O the processor performs. [fetch] answers [(response.ok, bytes)]. *)
Record Env := mkEnv {
  fetch : string -> option (bool * list Byte.byte);
  readFile : string -> option (list Byte.byte);
  getDocument : list Byte.byte -> option PDFDocument
}.

(* ------------------------------------------------------------------ *)
(** ** Page text reconstruction (the loop over [textContent.items]) *)

Fixpoint buildPageText (lastY : option Q) (pageText : string)
    (items : list TextContentItem) : string :=
  match items with
  | [] => pageText
  | MarkedContent :: rest => buildPageText lastY pageText rest
  | TextItem s y :: rest =>
      let pageText' :=
        match lastY with
        | Some ly => if negb (Qle_bool (Qabs (ly - y)) 1) then pageText +:+ nl else pageText
        | None => pageText
        end in
      buildPageText (Some y) (pageText' +:+ s) rest
  end.

(** One iteration of [for (let i = 1; i <= numPages; i++)]: a rejected
    [getPage] or [getTextContent] is caught and pushes [""]. *)
Definition pageTextOf (doc : PDFDocument) (i : nat) : string :=
  match getPage doc i with
  | None => ""
  | Some p =>
      match page_textContent p with
      | None => ""
      | Some items => buildPageText None "" items
      end
  end.

Definition extractPages (doc : PDFDocument) : list string :=
  map (pageTextOf doc) (seq 1 (numPages doc)).

(* ------------------------------------------------------------------ *)
(** ** Outline resolution ([processOutline] and [getPageIndex]) *)

(** [getPageIndex]: scan pages [1..numPages] for the reference; a rejected
    [getPage] is caught by the enclosing [try] and yields [null]. *)
Fixpoint scanPageRefs (doc : PDFDocument) (num gen : Z) (i fuel : nat) : option nat :=
  match fuel with
  | O => None
  | S fuel' =>
      match getPage doc (S i) with
      | None => None
      | Some p =>
          if decide (page_ref p = Some (num, gen)) then Some i
          else scanPageRefs doc num gen (S i) fuel'
      end
  end.

Definition getPageIndex (doc : PDFDocument) (pageRef : DestEntry) : option nat :=
  match pageRef with
  | DestRef num gen => scanPageRefs doc num gen 0 (numPages doc)
  | DestOther => None
  end.

(** The [if (item.dest) { try {...} catch {...} }] block. *)
Definition resolveDest (doc : PDFDocument) (d : option RawDest) : option Z :=
  let dest :=
    match d with
    | None => None
    | Some (DestNamed n) => if String.eqb n "" then None else Some (getDestination doc n)
    | Some (DestExplicit l) => Some (Some (Some l))
    end in
  match dest with
  | Some (Some (Some (pageRef :: _))) =>
      match getPageIndex doc pageRef with
      | Some i => Some (Z.of_nat i + 1)%Z
      | None => None
      end
  | _ => None
  end.

Fixpoint processOutlineItem (doc : PDFDocument) (level : Z) (item : RawOutlineItem)
    : OutlineItem :=
  match item with
  | RawItem title dest items =>
      mkOutlineItem title (resolveDest doc dest) level
        (match items with
         | [] => None
         | _ => Some (map (processOutlineItem doc (level + 1)) items)
         end)
  end.

Definition processOutline (doc : PDFDocument) (outline : list RawOutlineItem) (level : Z)
    : list OutlineItem :=
  map (processOutlineItem doc level) outline.

(* ------------------------------------------------------------------ *)
(** ** loadPDF *)

Section Load.

(** [createHash("md5").update(path).digest("hex")]: a function of [path]. *)
Variable md5_hex : string -> string.

(** Reading the bytes: a URL is fetched, anything else read from disk. *)
Definition readSource (env : Env) (p : string) : result (list Byte.byte) :=
  if startsWith p "http://" || startsWith p "https://" then
    match fetch env p with
    | None => Err (FailedToLoad FetchRejected)
    | Some (false, _) => Err (FailedToLoad FetchNotOk)
    | Some (true, bytes) => Ok bytes
    end
  else
    match readFile env p with
    | None => Err (FailedToLoad ReadFileRejected)
    | Some bytes => Ok bytes
    end.

(** [metadata = metaData ? metaData.info : null]; a rejection is caught. *)
Definition docMetadata (doc : PDFDocument) : option Info :=
  match getMetadata doc with
  | Some (Some info) => Some info
  | _ => None
  end.

(** The outline is processed only when [rawOutline.length > 0]; a
    rejected [getOutline] is caught and leaves it [undefined]. *)
Definition docOutline (doc : PDFDocument) : option (list OutlineItem) :=
  match getOutline doc with
  | Some ((_ :: _) as rawOutline) => Some (processOutline doc rawOutline 0)
  | _ => None
  end.

(** [loadPDF(path)] with the registry passed explicitly: the answer and
    the registry afterwards. Metadata, outline and page texts are computed
    in this order before the id and the single [loadedPDFs.set]. *)
Definition loadPDF (env : Env) (p : string) (loadedPDFs : Registry)
    : result (string * Z) * Registry :=
  match readSource env p with
  | Err e => (Err e, loadedPDFs)
  | Ok dataBuffer =>
      match getDocument env dataBuffer with
      | None => (Err (FailedToLoad ParseRejected), loadedPDFs)
      | Some doc =>
          let numPagesZ := Z.of_nat (numPages doc) in
          let md := docMetadata doc in
          let ol := docOutline doc in
          let pgs := extractPages doc in
          let pid := md5_hex p in
          (Ok (pid, numPagesZ),
           <[pid := mkLoadedPDF pid p numPagesZ pgs md ol]> loadedPDFs)
      end
  end.

End Load.

(* ------------------------------------------------------------------ *)
(** ** String primitives of the search *)

(** The characters are 8-bit, read as Latin-1 (U+0000..U+00FF).
    [upper_latin1] is the upper case of a character within that range as
    the [/i] flag compares them: a-z and U+00E0..U+00FE except U+00F7 move
    32 down; the other characters are their own canonical form here
    (U+00B5 and U+00FF have upper cases outside the range, which no other
    character of the range shares). *)
Definition upper_latin1 (c : ascii) : ascii :=
  let n := nat_of_ascii c in
  if ((Nat.leb 97 n) && (Nat.leb n 122))
     || ((Nat.leb 224 n) && (Nat.leb n 254) && negb (Nat.eqb n 247))
  then ascii_of_nat (n - 32) else c.

(** The lower case of [String.prototype.toLowerCase] on the range: A-Z
    and U+00C0..U+00DE except U+00D7 move 32 up; every other character of
    the range is its own lower case. *)
Definition lower_latin1 (c : ascii) : ascii :=
  let n := nat_of_ascii c in
  if ((Nat.leb 65 n) && (Nat.leb n 90))
     || ((Nat.leb 192 n) && (Nat.leb n 222) && negb (Nat.eqb n 215))
  then ascii_of_nat (n + 32) else c.

(** [String.prototype.toLowerCase] on 8-bit (Latin-1) strings. *)
Fixpoint toLowerCase (s : string) : string :=
  match s with
  | EmptyString => EmptyString
  | String c s' => String (lower_latin1 c) (toLowerCase s')
  end.

(** [s.substring(a, b)] for non-negative [a], [b]: the bounds are clamped
    to the length and swapped when [a > b]. *)
Definition substring (s : string) (a b : nat) : string :=
  let lo := Nat.min (Nat.min a b) (String.length s) in
  let hi := Nat.min (Nat.max a b) (String.length s) in
  String.substring lo (hi - lo) s.

(** [q] occurs in [s] at position [k]. *)
Definition occursAt (s q : string) (k : nat) : bool :=
  String.eqb (String.substring k (String.length q) s) q
  && Nat.leb (k + String.length q) (String.length s).

(** [s.indexOf(q, pos)] for [pos >= 0]: the first [k >= pos] at which [q]
    occurs, [None] for [-1]. *)
Definition indexOf (s q : string) (pos : nat) : option nat :=
  find (occursAt s q) (seq pos (S (String.length s) - pos)).

(** JS [WhiteSpace] and [LineTerminator] code points in the 8-bit range. *)
Definition is_js_space (c : ascii) : bool :=
  let n := nat_of_ascii c in
  ((Nat.leb 9 n) && (Nat.leb n 13)) || (Nat.eqb n 32) || (Nat.eqb n 160).

Fixpoint trimStart (s : string) : string :=
  match s with
  | String c s' => if is_js_space c then trimStart s' else s
  | EmptyString => EmptyString
  end.

(** [String.prototype.trim] *)
Definition trim (s : string) : string :=
  String.rev (trimStart (String.rev (trimStart s))).

(** A match and its [context]: [substring(max(0, position - 50),
    min(pageText.length, position + len + 50))], trimmed. *)
Definition contextOf (pageText : string) (position len : nat) : string :=
  let contextStart := position - 50 in
  let contextEnd := Nat.min (String.length pageText) (position + len + 50) in
  trim (substring pageText contextStart contextEnd).

(* ------------------------------------------------------------------ *)
(** ** Plain search *)

(** [while ((position = searchText.indexOf(searchQuery, position)) !== -1)].
    [None]: the loop is still running when the fuel is spent. An empty
    [searchQuery] is found again at the same [position] for ever, so the
    JS loop does not stop; otherwise each round advances [position] and
    [String.length searchText + 1] rounds are enough (lemma
    [plainScan_stops]). *)
Fixpoint plainScan (pageText searchText query searchQuery : string)
    (position fuel : nat) : option (list SearchMatch) :=
  match fuel with
  | O => None
  | S fuel' =>
      match indexOf searchText searchQuery position with
      | None => Some []
      | Some pos =>
          let m := mkSearchMatch
                     (substring pageText pos (pos + String.length query))
                     (contextOf pageText pos (String.length searchQuery)) in
          match plainScan pageText searchText query searchQuery
                  (pos + String.length searchQuery) fuel' with
          | Some ms => Some (m :: ms)
          | None => None
          end
      end
  end.

Definition plainSearchPage (caseSensitive : bool) (query pageText : string)
    : option (list SearchMatch) :=
  let searchQuery := if caseSensitive then query else toLowerCase query in
  let searchText := if caseSensitive then pageText else toLowerCase pageText in
  plainScan pageText searchText query searchQuery 0 (S (String.length searchText)).

(** [pdf.pages.forEach((pageText, index) => ...)] pushing
    [{page: index + 1, matches}] when [matches] is not empty. *)
Fixpoint searchPages (f : string -> option (list SearchMatch)) (index : Z)
    (pgs : list string) : option (list SearchResult) :=
  match pgs with
  | [] => Some []
  | pageText :: rest =>
      match f pageText, searchPages f (index + 1) rest with
      | Some ms, Some rs =>
          Some (match ms with
                | [] => rs
                | _ => mkSearchResult (index + 1) ms :: rs
                end)
      | _, _ => None
      end
  end.

(* ------------------------------------------------------------------ *)
(** ** Regular-expression search *)

(** What [searchPDF] uses of the built-in [RegExp]: the constructor
    [new RegExp(source, flags)] ([None]: it throws a [SyntaxError]) and
    [exec] of a global regexp started at [lastIndex], answering
    [(match.index, match[0])] or [None] for [null]. *)
Class RegExpEngine := {
  rx_pattern : Type;
  rx_compile : string -> string -> option rx_pattern;
  rx_exec : rx_pattern -> string -> nat -> option (nat * string)
}.

(** The contract of [RegExpBuiltinExec] for a global regexp: a match
    starts at or after [lastIndex], lies inside the input and is the
    substring found there; with [lastIndex > length] there is no match. *)
Definition exec_contract `{RegExpEngine} : Prop :=
  (forall re s li k m, rx_exec re s li = Some (k, m) ->
     li <= k /\ k + String.length m <= String.length s
     /\ m = substring s k (k + String.length m))
  /\ (forall re s li, String.length s < li -> rx_exec re s li = None).

(** The flags [caseSensitive ? 'g' : 'gi']. *)
Definition regexFlags (caseSensitive : bool) : string :=
  if caseSensitive then "g" else "gi".

Section RegexSearch.
Context `{RegExpEngine}.

(** One round of [while ((match = regexPattern.exec(pageText)) !== null)]:
    the match, and [lastIndex] after [exec] (the end of the match) and
    after the zero-width guard [if (match.index === lastIndex) lastIndex++]. *)
Definition regexStep (re : rx_pattern) (pageText : string) (lastIndex : nat)
    : option (SearchMatch * nat) :=
  match rx_exec re pageText lastIndex with
  | None => None
  | Some (position, matchedText) =>
      let lastIndex' := position + String.length matchedText in
      Some (mkSearchMatch matchedText
              (contextOf pageText position (String.length matchedText)),
            if Nat.eqb position lastIndex' then S lastIndex' else lastIndex')
  end.

(** The loop, run with fuel; [None]: the fuel is spent. *)
Fixpoint regexScan (re : rx_pattern) (pageText : string) (lastIndex fuel : nat)
    : option (list SearchMatch) :=
  match fuel with
  | O => None
  | S fuel' =>
      match regexStep re pageText lastIndex with
      | None => Some []
      | Some (m, lastIndex') =>
          match regexScan re pageText lastIndex' fuel' with
          | Some ms => Some (m :: ms)
          | None => None
          end
      end
  end.

(** [regexPattern.lastIndex = 0] and the loop over one page. *)
Definition regexSearchPage (re : rx_pattern) (pageText : string)
    : option (list SearchMatch) :=
  regexScan re pageText 0 (S (S (String.length pageText))).

(** [searchPDF(pdfId, query, caseSensitive, regex)]; the outer [None]
    stands for a call that does not return (a plain loop that does not
    stop). *)
Definition searchPDF (loadedPDFs : Registry) (pdfId query : string)
    (caseSensitive regex : bool) : option (result (list SearchResult)) :=
  match loadedPDFs !! pdfId with
  | None => Some (Err PDFNotFound)
  | Some pdf =>
      if regex then
        match rx_compile query (regexFlags caseSensitive) with
        | None => Some (Err (InvalidRegex query))
        | Some re => option_map Ok (searchPages (regexSearchPage re) 0 (pages pdf))
        end
      else
        option_map Ok (searchPages (plainSearchPage caseSensitive query) 0 (pages pdf))
  end.

End RegexSearch.

(* ------------------------------------------------------------------ *)
(** ** A fragment of ECMAScript [RegExp] (non-unicode mode)

    Patterns: literal characters, [.], [^], [$], groups [( )] and [(?: )],
    character classes [[...]] and [[^...]] with ranges and the escapes
    [\d \D \w \W \s \S], identity and control escapes, alternation and
    the quantifiers [* + ?] (greedy, or lazy with a trailing [?]).
    Syntax errors the fragment detects: an unterminated class or group,
    an unmatched [)], a quantifier with nothing to repeat, a [\] at the
    end, a class range out of order. Braces, back-references, lookarounds
    and the other escapes are outside the fragment ([PUnsupported]);
    nothing is claimed about them. Matching follows the backtracking
    order of the specification: [ends r i] lists the end positions of the
    ways [r] matches at [i], in the order they are tried. *)
Module MiniRegExp.

Inductive ClassItem :=
| CChar (c : ascii)
| CRange (lo hi : ascii)
| CDigit | CNotDigit | CWord | CNotWord | CSpace | CNotSpace.

Inductive Rx :=
| RChar (c : ascii)
| RAny
| RClass (negated : bool) (items : list ClassItem)
| RBol
| REol
| REmpty
| RSeq (r1 r2 : Rx)
| RAlt (r1 r2 : Rx)
| RStar (greedy : bool) (r : Rx)
| RPlus (greedy : bool) (r : Rx)
| ROpt (greedy : bool) (r : Rx).

Inductive PRes (A : Type) := POk (a : A) | PSyntax | PUnsupported.
Arguments POk {A} a.
Arguments PSyntax {A}.
Arguments PUnsupported {A}.

Definition is_digit (c : ascii) : bool :=
  let n := nat_of_ascii c in (Nat.leb 48 n) && (Nat.leb n 57).
Definition is_word (c : ascii) : bool :=
  let n := nat_of_ascii c in
  is_digit c || ((Nat.leb 65 n) && (Nat.leb n 90))
  || ((Nat.leb 97 n) && (Nat.leb n 122)) || (Nat.eqb n 95).
Definition is_line_terminator (c : ascii) : bool :=
  let n := nat_of_ascii c in (Nat.eqb n 10) || (Nat.eqb n 13).

Definition item_matches (it : ClassItem) (c : ascii) : bool :=
  match it with
  | CChar d => Ascii.eqb c d
  | CRange lo hi => (Nat.leb (nat_of_ascii lo) (nat_of_ascii c))
                    && (Nat.leb (nat_of_ascii c) (nat_of_ascii hi))
  | CDigit => is_digit c
  | CNotDigit => negb (is_digit c)
  | CWord => is_word c
  | CNotWord => negb (is_word c)
  | CSpace => is_js_space c
  | CNotSpace => negb (is_js_space c)
  end.

Definition in_class (items : list ClassItem) (c : ascii) : bool :=
  existsb (fun it => item_matches it c) items.

(** [Canonicalize]: with the [i] flag, characters compare by upper case. *)
Definition canon (ignoreCase : bool) (c : ascii) : ascii :=
  if ignoreCase then upper_latin1 c else c.

(** Some member [a] of the class has [Canonicalize(a) = Canonicalize(c)]. *)
Definition class_matches (ignoreCase : bool) (items : list ClassItem) (c : ascii) : bool :=
  in_class items c
  || (ignoreCase && (in_class items (lower_latin1 c) || in_class items (upper_latin1 c))).

(** The character escapes [\n \t \r \f \v] and the identity escapes. *)
Definition control_escape (c : ascii) : option ascii :=
  match nat_of_ascii c with
  | 110 => Some (ascii_of_nat 10) | 116 => Some (ascii_of_nat 9)
  | 114 => Some (ascii_of_nat 13) | 102 => Some (ascii_of_nat 12)
  | 118 => Some (ascii_of_nat 11)
  | _ => None
  end.

Definition class_escape (c : ascii) : option ClassItem :=
  match nat_of_ascii c with
  | 100 => Some CDigit | 68 => Some CNotDigit
  | 119 => Some CWord | 87 => Some CNotWord
  | 115 => Some CSpace | 83 => Some CNotSpace
  | _ => None
  end.

(** Escapes outside the fragment: digits, [b B c x u k p P]. *)
Definition unsupported_escape (c : ascii) : bool :=
  is_digit c || existsb (Ascii.eqb c) ["b"; "B"; "c"; "x"; "u"; "k"; "p"; "P"]%char.

(** [\c] inside or outside a class, after the [\]. *)
Definition parseEscape (c : ascii) : PRes ClassItem :=
  if unsupported_escape c then PUnsupported
  else match class_escape c, control_escape c with
       | Some it, _ => POk it
       | None, Some d => POk (CChar d)
       | None, None => POk (CChar c)
       end.

(** One class atom: a character or an escape. *)
Definition parseClassAtom (cs : list ascii) : PRes (ClassItem * list ascii) :=
  match cs with
  | [] => PSyntax
  | "\"%char :: [] => PSyntax
  | "\"%char :: c :: rest =>
      match parseEscape c with
      | POk it => POk (it, rest)
      | PSyntax => PSyntax
      | PUnsupported => PUnsupported
      end
  | c :: rest => POk (CChar c, rest)
  end.

(** The body of a class up to its [\]]; [PSyntax] when it never closes. *)
Fixpoint parseClassBody (fuel : nat) (cs : list ascii) : PRes (list ClassItem * list ascii) :=
  match fuel with
  | O => PUnsupported
  | S f =>
      match cs with
      | [] => PSyntax
      | "]"%char :: rest => POk ([], rest)
      | _ =>
          match parseClassAtom cs with
          | POk (a, "-"%char :: rest1) =>
              match rest1 with
              | "]"%char :: _ =>
                  match parseClassBody f rest1 with
                  | POk (its, rest2) => POk (a :: CChar "-" :: its, rest2)
                  | e => e
                  end
              | [] => PSyntax
              | _ =>
                  match parseClassAtom rest1 with
                  | POk (b, rest2) =>
                      match a, b with
                      | CChar lo, CChar hi =>
                          if Nat.ltb (nat_of_ascii hi) (nat_of_ascii lo) then PSyntax
                          else match parseClassBody f rest2 with
                               | POk (its, rest3) => POk (CRange lo hi :: its, rest3)
                               | e => e
                               end
                      | _, _ => PUnsupported
                      end
                  | PSyntax => PSyntax
                  | PUnsupported => PUnsupported
                  end
              end
          | POk (a, rest1) =>
              match parseClassBody f rest1 with
              | POk (its, rest2) => POk (a :: its, rest2)
              | e => e
              end
          | PSyntax => PSyntax
          | PUnsupported => PUnsupported
          end
      end
  end.

Definition is_quantifier (c : ascii) : bool :=
  Ascii.eqb c "*" || Ascii.eqb c "+" || Ascii.eqb c "?".

(** A quantifier after an atom; an assertion takes none. *)
Definition quantifiable (ok : bool) (atom : Rx) (cs : list ascii) : PRes (Rx * list ascii) :=
  match cs with
  | q :: rest =>
      if is_quantifier q then
        if negb ok then PSyntax else
        let '(greedy, rest2) :=
          match rest with
          | "?"%char :: rest2 => (false, rest2)
          | _ => (true, rest)
          end in
        if Ascii.eqb q "*" then POk (RStar greedy atom, rest2)
        else if Ascii.eqb q "+" then POk (RPlus greedy atom, rest2)
        else POk (ROpt greedy atom, rest2)
      else if Ascii.eqb q "{" then PUnsupported
      else POk (atom, cs)
  | [] => POk (atom, [])
  end.

(** [Disjunction], [Alternative] and [Term] of the pattern grammar. *)
Fixpoint parseDisj (fuel : nat) (cs : list ascii) : PRes (Rx * list ascii) :=
  match fuel with
  | O => PUnsupported
  | S f =>
      match parseAlt f cs with
      | POk (r1, "|"%char :: rest) =>
          match parseDisj f rest with
          | POk (r2, rest2) => POk (RAlt r1 r2, rest2)
          | e => e
          end
      | e => e
      end
  end
with parseAlt (fuel : nat) (cs : list ascii) : PRes (Rx * list ascii) :=
  match fuel with
  | O => PUnsupported
  | S f =>
      match cs with
      | [] => POk (REmpty, [])
      | "|"%char :: _ | ")"%char :: _ => POk (REmpty, cs)
      | _ =>
          match parseTerm f cs with
          | POk (t, rest) =>
              match parseAlt f rest with
              | POk (r, rest2) => POk (RSeq t r, rest2)
              | e => e
              end
          | e => e
          end
      end
  end
with parseTerm (fuel : nat) (cs : list ascii) : PRes (Rx * list ascii) :=
  match fuel with
  | O => PUnsupported
  | S f =>
      match cs with
      | [] => PSyntax
      | "^"%char :: rest => quantifiable false RBol rest
      | "$"%char :: rest => quantifiable false REol rest
      | "."%char :: rest => quantifiable true RAny rest
      | "("%char :: "?"%char :: ":"%char :: rest => group f rest
      | "("%char :: "?"%char :: _ => PUnsupported
      | "("%char :: rest => group f rest
      | "["%char :: "^"%char :: rest =>
          match parseClassBody (S (List.length rest)) rest with
          | POk (its, rest2) => quantifiable true (RClass true its) rest2
          | PSyntax => PSyntax
          | PUnsupported => PUnsupported
          end
      | "["%char :: rest =>
          match parseClassBody (S (List.length rest)) rest with
          | POk (its, rest2) => quantifiable true (RClass false its) rest2
          | PSyntax => PSyntax
          | PUnsupported => PUnsupported
          end
      | "\"%char :: [] => PSyntax
      | "\"%char :: c :: rest =>
          match parseEscape c with
          | POk (CChar d) => quantifiable true (RChar d) rest
          | POk it => quantifiable true (RClass false [it]) rest
          | PSyntax => PSyntax
          | PUnsupported => PUnsupported
          end
      | "{"%char :: _ | "}"%char :: _ => PUnsupported
      | c :: rest =>
          if is_quantifier c then PSyntax else quantifiable true (RChar c) rest
      end
  end
with group (fuel : nat) (cs : list ascii) : PRes (Rx * list ascii) :=
  match fuel with
  | O => PUnsupported
  | S f =>
      match parseDisj f cs with
      | POk (r, ")"%char :: rest) => quantifiable true r rest
      | POk _ => PSyntax
      | e => e
      end
  end.

(** The whole pattern: a [Disjunction] that uses up the input. *)
Definition parsePattern (source : string) : PRes Rx :=
  let cs := list_ascii_of_string source in
  match parseDisj (4 * S (List.length cs)) cs with
  | POk (r, []) => POk r
  | POk _ => PSyntax
  | PSyntax => PSyntax
  | PUnsupported => PUnsupported
  end.

(** Greedy or lazy repetition of a matcher [m] from [i]: an iteration
    that matches the empty string fails (the [RepeatMatcher] check). The
    fuel bounds the number of iterations; every iteration advances, so
    [length input + 1] iterations are never exceeded. *)
Fixpoint star (greedy : bool) (m : nat -> list nat) (fuel i : nat) : list nat :=
  match fuel with
  | O => [i]
  | S f =>
      let more := flat_map (fun j => if Nat.eqb j i then [] else star greedy m f j) (m i) in
      if greedy then more ++ [i] else i :: more
  end.

Definition charAt (s : string) (i : nat) (p : ascii -> bool) : list nat :=
  match String.get i s with
  | Some c => if p c then [S i] else []
  | None => []
  end.

Fixpoint ends (ignoreCase : bool) (s : string) (r : Rx) (i : nat) : list nat :=
  match r with
  | RChar c => charAt s i (fun d => Ascii.eqb (canon ignoreCase c) (canon ignoreCase d))
  | RAny => charAt s i (fun d => negb (is_line_terminator d))
  | RClass neg items => charAt s i (fun d => xorb neg (class_matches ignoreCase items d))
  | RBol => if Nat.eqb i 0 then [i] else []
  | REol => if Nat.eqb i (String.length s) then [i] else []
  | REmpty => [i]
  | RSeq r1 r2 => flat_map (ends ignoreCase s r2) (ends ignoreCase s r1 i)
  | RAlt r1 r2 => ends ignoreCase s r1 i ++ ends ignoreCase s r2 i
  | RStar g r1 => star g (ends ignoreCase s r1) (S (String.length s)) i
  | RPlus g r1 =>
      flat_map (star g (ends ignoreCase s r1) (S (String.length s))) (ends ignoreCase s r1 i)
  | ROpt g r1 =>
      let e := List.filter (fun j => negb (Nat.eqb j i)) (ends ignoreCase s r1 i) in
      if g then e ++ [i] else i :: e
  end.

(** A compiled regexp: its pattern and its [ignoreCase] flag. *)
Record Compiled := mkCompiled { c_rx : Rx; c_ignoreCase : bool }.

(** The flags [g] and [i], each at most once. *)
Definition parseFlags (flags : string) : option bool :=
  match list_ascii_of_string flags with
  | [] | ["g"%char] => Some false
  | ["i"%char] | ["g"%char; "i"%char] | ["i"%char; "g"%char] => Some true
  | _ => None
  end.

(** [new RegExp(source, flags)] within the fragment; [PSyntax] is the
    thrown [SyntaxError]. *)
Definition newRegExp (source flags : string) : PRes Compiled :=
  match parseFlags flags with
  | None => PSyntax
  | Some ic =>
      match parsePattern source with
      | POk r => POk (mkCompiled r ic)
      | PSyntax => PSyntax
      | PUnsupported => PUnsupported
      end
  end.

(** [exec] from [lastIndex]: the first start position with a match, and
    the first end position tried there. *)
Definition exec (re : Compiled) (s : string) (lastIndex : nat) : option (nat * string) :=
  if Nat.ltb (String.length s) lastIndex then None else
  match find (fun k => match ends (c_ignoreCase re) s (c_rx re) k with [] => false | _ => true end)
             (seq lastIndex (S (String.length s) - lastIndex)) with
  | None => None
  | Some k =>
      match ends (c_ignoreCase re) s (c_rx re) k with
      | e :: _ => Some (k, substring s k e)
      | [] => None
      end
  end.

(** The fragment as a [RegExpEngine]. Only patterns the fragment decides
    ([newRegExp] answers [POk] or [PSyntax]) are run through it; the
    [PUnsupported] ones are mapped to [None] only to fit the interface. *)
#[export] Instance engine : RegExpEngine := {
  rx_pattern := Compiled;
  rx_compile := fun source flags =>
    match newRegExp source flags with POk c => Some c | _ => None end;
  rx_exec := exec
}.

End MiniRegExp.

(* ------------------------------------------------------------------ *)
(** ** Images and rendering: the page layer *)

(** [Math.round]: the nearest integer, halves rounded up. *)
Definition js_round (x : Q) : Z := Qfloor (x + (1 # 2))%Q.

(** An image object of [page.objs]: [data] ([None]: undefined), [width],
    [height] ([0] stands for a missing one) and [kind]. *)
Record ImageObj := mkImageObj {
  img_data : option (list Z);
  img_width : Z;
  img_height : Z;
  img_kind : Z
}.

(** The bytes an image carries: the embedded JPEG or PNG stream, the PNG
    [convertRawImageToPNG] encodes from raw samples, or the PNG of a
    page painted on a canvas. *)
Inductive ImageBytes :=
| Embedded (data : list Z)
| ConvertedRaw (obj : ImageObj)
| PagePNG (png : list Byte.byte).

Record ImageInfo := mkImageInfo {
  ii_page : Z; ii_index : Z; ii_width : Z; ii_height : Z;
  ii_format : string; ii_data : ImageBytes
}.

(** A page proxy as the image and rendering code uses it.
    - [ip_ops]: [page.getOperatorList()] as [(fnArray[i], argsArray[i][0])]
      pairs ([None]: rejected);
    - [ip_objs]: [page.objs.get(name)] ([None]: rejected or falsy);
    - [ip_view]: the width and height of the page's (rotated) view box,
      which [page.getViewport({scale})] multiplies by [scale];
    - [ip_paint]: [page.render] on a fresh canvas and [canvas.toBuffer]
      in the given format at the given scale ([None]: it throws). *)
Record ImagePage := mkImagePage {
  ip_ops : option (list (Z * string));
  ip_objs : string -> option ImageObj;
  ip_view : Q * Q;
  ip_paint : Q -> string -> option (list Byte.byte)
}.

Record ImageDoc := mkImageDoc {
  idoc_numPages : nat;
  idoc_getPage : Z -> option ImagePage
}.

Definition getViewport (page : ImagePage) (scale : Q) : Q * Q :=
  (fst (ip_view page) * scale, snd (ip_view page) * scale)%Q.

(** The classification of one painted image. *)
Definition classifyImage (obj : ImageObj) : option (string * ImageBytes) :=
  match img_data obj with
  | Some ((d0 :: _) as data) =>
      let d1 := nth 1 data (-1)%Z in
      if (d0 =? 255)%Z && (d1 =? 216)%Z then Some ("jpeg", Embedded data)
      else if (d0 =? 137)%Z && (d1 =? 80)%Z then Some ("png", Embedded data)
      else if negb (img_width obj =? 0)%Z && negb (img_height obj =? 0)%Z
      then Some ("png", ConvertedRaw obj)
      else None
  | _ => None
  end.

(** The scan of the operator list: opcodes 85, 82, 83 paint images; the
    index counts the images pushed so far. *)
Fixpoint scanOps (page : ImagePage) (pageNum : Z) (imageIndex : Z)
    (ops : list (Z * string)) : list ImageInfo :=
  match ops with
  | [] => []
  | (fn, imageName) :: rest =>
      if (fn =? 85)%Z || (fn =? 82)%Z || (fn =? 83)%Z then
        match ip_objs page imageName with
        | Some obj =>
            match classifyImage obj with
            | Some (format, data) =>
                mkImageInfo pageNum imageIndex (img_width obj) (img_height obj) format data
                  :: scanOps page pageNum (imageIndex + 1) rest
            | None => scanOps page pageNum imageIndex rest
            end
        | None => scanOps page pageNum imageIndex rest
        end
      else scanOps page pageNum imageIndex rest
  end.

Definition extractImagesFromPage (page : ImagePage) (pageNum : Z) (dpi : Q)
    : result (list ImageInfo) :=
  match ip_ops page with
  | None => Err DocumentRejected
  | Some ops =>
      let scale := (dpi / 72)%Q in
      let images := scanOps page pageNum 0 ops in
      match images with
      | [] =>
          if Qlt_le_dec 0 dpi then
            let viewport := getViewport page scale in
            match ip_paint page scale "image/png" with
            | Some png =>
                Ok [mkImageInfo pageNum 0 (js_round (fst viewport))
                      (js_round (snd viewport)) "png" (PagePNG png)]
            | None => Ok []
            end
          else Ok []
      | _ => Ok images
      end
  end.

Record ExtractedImage := mkExtractedImage {
  ei_page : Z; ei_index : Z; ei_width : Z; ei_height : Z;
  ei_format : string; ei_bytes : ImageBytes
}.

Definition toExtracted (ii : ImageInfo) : ExtractedImage :=
  mkExtractedImage (ii_page ii) (ii_index ii) (ii_width ii) (ii_height ii)
    (if String.eqb (ii_format ii) "" then "png" else ii_format ii) (ii_data ii).

(** The loop of [extractImages] over [pagesToProcess]. *)
Fixpoint extractImagesLoop (doc : ImageDoc) (dpi : Q) (pagesToProcess : list Z)
    : result (list ExtractedImage) :=
  match pagesToProcess with
  | [] => Ok []
  | pageNum :: rest =>
      if (pageNum <? 1)%Z || (Z.of_nat (idoc_numPages doc) <? pageNum)%Z
      then extractImagesLoop doc dpi rest
      else
        match idoc_getPage doc pageNum with
        | None => Err DocumentRejected
        | Some page =>
            match extractImagesFromPage page pageNum dpi with
            | Err e => Err e
            | Ok imgs =>
                match extractImagesLoop doc dpi rest with
                | Ok more => Ok (map toExtracted imgs ++ more)
                | Err e => Err e
                end
            end
        end
  end.

(** [extractImages(pdfId, pageNumbers, dpi)]; [doc] is the document
    reopened from [pdf.path]. *)
Definition extractImages (loadedPDFs : Registry) (doc : ImageDoc) (pdfId : string)
    (pageNumbers : option (list Z)) (dpi : Q) : result (list ExtractedImage) :=
  match loadedPDFs !! pdfId with
  | None => Err PDFNotFound
  | Some _ =>
      let pagesToProcess :=
        match pageNumbers with
        | Some l => l
        | None => map (fun i => Z.of_nat i + 1)%Z (seq 0 (idoc_numPages doc))
        end in
      extractImagesLoop doc dpi pagesToProcess
  end.

Record RenderedPage := mkRenderedPage {
  rp_page : Z; rp_width : Z; rp_height : Z; rp_format : string;
  rp_bytes : list Byte.byte; rp_dpi : Q
}.

(** [renderPage(pdfId, pageNumber, dpi, format)]; [doc] is the document
    reopened from [pdf.path]. *)
Definition renderPage (loadedPDFs : Registry) (doc : ImageDoc) (pdfId : string)
    (pageNumber : Z) (dpi : Q) (format : string) : result RenderedPage :=
  match loadedPDFs !! pdfId with
  | None => Err PDFNotFound
  | Some pdf =>
      if (pageNumber <? 1)%Z || (pageCount pdf <? pageNumber)%Z
      then Err (InvalidPageNumber (pageCount pdf))
      else
        match idoc_getPage doc pageNumber with
        | None => Err DocumentRejected
        | Some page =>
            let scale := (dpi / 72)%Q in
            let viewport := getViewport page scale in
            match ip_paint page scale (if String.eqb format "jpeg" then "image/jpeg" else "image/png") with
            | None => Err DocumentRejected
            | Some buf =>
                Ok (mkRenderedPage pageNumber (js_round (fst viewport))
                      (js_round (snd viewport)) format buf dpi)
            end
        end
  end.

(* ------------------------------------------------------------------ *)
(** ** getPDFInfo, listLoadedPDFs and the outline queries *)

Record PDFInfo := mkPDFInfo {
  info_id : string; info_path : string; info_pageCount : Z; info_metadata : option Info
}.

Definition getPDFInfo (loadedPDFs : Registry) (pdfId : string) : result PDFInfo :=
  match loadedPDFs !! pdfId with
  | None => Err PDFNotFound
  | Some pdf => Ok (mkPDFInfo (id pdf) (path pdf) (pageCount pdf) (metadata pdf))
  end.

Record PDFSummary := mkPDFSummary { sum_id : string; sum_path : string; sum_pageCount : Z }.

(** [Array.from(loadedPDFs.values()).map(...)]. A JS [Map] iterates in
    insertion order, which the [gmap] does not keep: the records are
    listed in the order of [map_to_list], and what is proved about the
    list does not depend on the order. *)
Definition listLoadedPDFs (loadedPDFs : Registry) : list PDFSummary :=
  map (fun kv => mkPDFSummary (id kv.2) (path kv.2) (pageCount kv.2)) (map_to_list loadedPDFs).

(** [extractOutline]: [null] ([Ok None]) for a missing or empty outline. *)
Definition extractOutline (loadedPDFs : Registry) (pdfId : string)
    : result (option (list OutlineItem)) :=
  match loadedPDFs !! pdfId with
  | None => Err PDFNotFound
  | Some pdf =>
      match outline pdf with
      | None | Some [] => Ok None
      | Some o => Ok (Some o)
      end
  end.

(** [item.page ? ` (Page ${item.page})` : ""] *)
Definition pageInfo (page : option Z) : string :=
  match page with
  | Some p => if (p =? 0)%Z then "" else " (Page " +:+ pretty p +:+ ")"
  | None => ""
  end.

(** One round of the loop of [formatOutlineAsText(items, indent)]: the
    accumulated [result] before and after [item]; the children are
    formatted by the recursive call with [indent + "  "], which starts
    from [""]. *)
Fixpoint formatItem (indent : string) (acc : string) (item : OutlineItem) {struct item}
    : string :=
  match item with
  | mkOutlineItem title page _ children =>
      let acc' := acc +:+ (indent +:+ title +:+ pageInfo page +:+ nl) in
      match children with
      | Some ((_ :: _) as cs) =>
          acc' +:+ (fix go (r : string) (l : list OutlineItem) : string :=
                      match l with
                      | [] => r
                      | c :: l' => go (formatItem (indent +:+ "  ") r c) l'
                      end) "" cs
      | _ => acc'
      end
  end.

Definition formatOutlineAsText (items : list OutlineItem) (indent : string) : string :=
  fold_left (formatItem indent) items "".

Definition no_outline_text : string := "No outline/TOC found in this PDF.".

Definition getFormattedOutline (loadedPDFs : Registry) (pdfId : string) : result string :=
  match extractOutline loadedPDFs pdfId with
  | Err e => Err e
  | Ok None => Ok no_outline_text
  | Ok (Some o) => Ok (formatOutlineAsText o "")
  end.

(** The entries of an outline in pre-order, each with its nesting depth. *)
Fixpoint outline_entries (depth : nat) (item : OutlineItem) : list (nat * OutlineItem) :=
  match item with
  | mkOutlineItem _ _ _ children =>
      (depth, item)
        :: match children with
           | Some cs =>
               (fix go (l : list OutlineItem) : list (nat * OutlineItem) :=
                  match l with
                  | [] => []
                  | c :: l' => outline_entries (S depth) c ++ go l'
                  end) cs
           | None => []
           end
  end.

Fixpoint raw_entries (depth : nat) (item : RawOutlineItem) : list (nat * RawOutlineItem) :=
  match item with
  | RawItem _ _ items =>
      (depth, item)
        :: (fix go (l : list RawOutlineItem) : list (nat * RawOutlineItem) :=
              match l with
              | [] => []
              | c :: l' => raw_entries (S depth) c ++ go l'
              end) items
  end.

(** Two spaces per level. *)
Fixpoint spaces (depth : nat) : string :=
  match depth with
  | O => ""
  | S d => "  " +:+ spaces d
  end.

(** The line of an entry at [depth] below a list formatted with [indent]. *)
Definition outline_line (indent : string) (e : nat * OutlineItem) : string :=
  match e.2 with
  | mkOutlineItem title page _ _ => indent +:+ spaces e.1 +:+ title +:+ pageInfo page +:+ nl
  end.

(** The concatenation of a list of strings. *)
Definition cat (l : list string) : string := foldr String.append "" l.

(** The line [formatOutlineAsText] writes for a raw outline entry at
    [depth] once [loadPDF] has resolved its destination. *)
Definition raw_line (doc : PDFDocument) (e : nat * RawOutlineItem) : string :=
  match e.2 with
  | RawItem title dest _ => spaces e.1 +:+ title +:+ pageInfo (resolveDest doc dest) +:+ nl
  end.

(** Induction over the nested outline types. *)
Section OutlineInduction.
Variable P : OutlineItem -> Prop.
Hypothesis H_item : forall title page level children,
  match children with Some cs => Forall P cs | None => True end ->
  P (mkOutlineItem title page level children).

Fixpoint outline_item_ind (item : OutlineItem) : P item :=
  match item with
  | mkOutlineItem title page level children =>
      H_item title page level children
        (match children as o return (match o with Some cs => Forall P cs | None => True end) with
         | Some cs =>
             (fix go (l : list OutlineItem) : Forall P l :=
                match l with
                | [] => List.Forall_nil P
                | c :: l' => List.Forall_cons P c l' (outline_item_ind c) (go l')
                end) cs
         | None => I
         end)
  end.
End OutlineInduction.

Section RawOutlineInduction.
Variable P : RawOutlineItem -> Prop.
Hypothesis H_raw : forall title dest items, Forall P items -> P (RawItem title dest items).

Fixpoint raw_item_ind (item : RawOutlineItem) : P item :=
  match item with
  | RawItem title dest items =>
      H_raw title dest items
        ((fix go (l : list RawOutlineItem) : Forall P l :=
            match l with
            | [] => List.Forall_nil P
            | c :: l' => List.Forall_cons P c l' (raw_item_ind c) (go l')
            end) items)
  end.
End RawOutlineInduction.

(* ------------------------------------------------------------------ *)
(** ** listImages, extractImage and renderPages *)

(** The loop of [listImages] over the pages [pageNum ..] of the reopened
    document, with [dpi = 0]. *)
Fixpoint listImagesLoop (doc : ImageDoc) (pageNum : Z) (n : nat) : result (list ImageInfo) :=
  match n with
  | O => Ok []
  | S n' =>
      match idoc_getPage doc pageNum with
      | None => Err DocumentRejected
      | Some page =>
          match extractImagesFromPage page pageNum 0 with
          | Err e => Err e
          | Ok pageImages =>
              match listImagesLoop doc (pageNum + 1) n' with
              | Ok more => Ok (pageImages ++ more)
              | Err e => Err e
              end
          end
      end
  end.

Definition listImages (loadedPDFs : Registry) (doc : ImageDoc) (pdfId : string)
    : result (list ImageInfo) :=
  match loadedPDFs !! pdfId with
  | None => Err PDFNotFound
  | Some _ => listImagesLoop doc 1 (idoc_numPages doc)
  end.

(** [extractImage]: [images.find(img => img.page === pageNumber &&
    img.index === imageIndex) || null]. *)
Definition extractImage (loadedPDFs : Registry) (doc : ImageDoc) (pdfId : string)
    (pageNumber imageIndex : Z) (dpi : Q) : result (option ExtractedImage) :=
  match extractImages loadedPDFs doc pdfId (Some [pageNumber]) dpi with
  | Err e => Err e
  | Ok images =>
      Ok (find (fun img => (ei_page img =? pageNumber)%Z && (ei_index img =? imageIndex)%Z)
               images)
  end.

(** The loop of [renderPages]: pages out of [1..pageCount] are skipped,
    a page whose [renderPage] throws is logged and skipped. *)
Fixpoint renderPagesLoop (loadedPDFs : Registry) (doc : ImageDoc) (pdfId : string)
    (pdf : LoadedPDF) (dpi : Q) (format : string) (pgs : list Z) : list RenderedPage :=
  match pgs with
  | [] => []
  | pageNum :: rest =>
      let more := renderPagesLoop loadedPDFs doc pdfId pdf dpi format rest in
      if (1 <=? pageNum)%Z && (pageNum <=? pageCount pdf)%Z then
        match renderPage loadedPDFs doc pdfId pageNum dpi format with
        | Ok renderedPage => renderedPage :: more
        | Err _ => more
        end
      else more
  end.

Definition renderPages (loadedPDFs : Registry) (doc : ImageDoc) (pdfId : string)
    (pageNumbers : option (list Z)) (dpi : Q) (format : string) : result (list RenderedPage) :=
  match loadedPDFs !! pdfId with
  | None => Err PDFNotFound
  | Some pdf =>
      let pgs :=
        match pageNumbers with
        | Some l => l
        | None => map (fun i => Z.of_nat i + 1)%Z (seq 0 (Z.to_nat (pageCount pdf)))
        end in
      Ok (renderPagesLoop loadedPDFs doc pdfId pdf dpi format pgs)
  end.

(** The test [pageNum >= 1 && pageNum <= pdf.pageCount] of [renderPages]. *)
Definition in_page_range (pdf : LoadedPDF) (z : Z) : bool := (1 <=? z)%Z && (z <=? pageCount pdf)%Z.

(* ------------------------------------------------------------------ *)
(** ** Output paths of the server (src/index.ts) *)

(** [s.replace(re, rep)] for a global [re] that matches the non-empty
    literal [tok] (here [\{key\}]): the leftmost occurrence from the
    current position is replaced and the scan resumes after it. [skip]
    counts the characters of the occurrence just replaced that are still
    to be passed over. *)
Fixpoint replaceLit (tok rep : string) (skip : nat) (s : string) : string :=
  match s with
  | EmptyString => EmptyString
  | String c s' =>
      match skip with
      | S k => replaceLit tok rep k s'
      | O =>
          if String.prefix tok s then rep +:+ replaceLit tok rep (String.length tok - 1) s'
          else String c (replaceLit tok rep 0 s')
      end
  end.

(** [expandPathPattern(pattern, replacements)]: for each entry, in the
    order of [Object.entries], [{key}] is replaced by [value.toString()]. *)
Definition expandPathPattern (pattern : string) (replacements : list (string * Z)) : string :=
  fold_left (fun expanded kv => replaceLit ("{" +:+ kv.1 +:+ "}") (pretty kv.2) 0 expanded)
    replacements pattern.

(** The path an image of [extract_images] is saved to. *)
Definition imageFilePath (outputPath : string) (image : ExtractedImage) : string :=
  expandPathPattern outputPath [("page", ei_page image); ("index", ei_index image)].

(** [n || d] for a number [n] ([0] is falsy). *)
Definition js_or (n d : Z) : Z := if (n =? 0)%Z then d else n.

(** The [outputPath] branch of the [extract_images] tool: the
    [saveImageToFile(image.base64, filePath)] calls, in order, as
    (path, bytes) pairs, and the path its answer "Saved n images. First
    image saved to: ..." names, built from [images[0]?.page || 1] and
    [images[0]?.index || 0]. *)
Definition extractImagesSaves (outputPath : string) (images : list ExtractedImage)
    : list (string * ImageBytes) :=
  map (fun image => (imageFilePath outputPath image, ei_bytes image)) images.

Definition extractImagesFirstPath (outputPath : string) (images : list ExtractedImage) : string :=
  expandPathPattern outputPath
    [("page", match images with image :: _ => js_or (ei_page image) 1 | [] => 1 end);
     ("index", match images with image :: _ => js_or (ei_index image) 0 | [] => 0 end)]%Z.

(** The same for the [render_pages] tool, with [renderedPages[0]?.page || 1]. *)
Definition renderPagesSaves (outputPath : string) (renderedPages : list RenderedPage)
    : list (string * list Byte.byte) :=
  map (fun page => (expandPathPattern outputPath [("page", rp_page page)], rp_bytes page))
    renderedPages.

Definition renderPagesFirstPath (outputPath : string) (renderedPages : list RenderedPage) : string :=
  expandPathPattern outputPath
    [("page", match renderedPages with page :: _ => js_or (rp_page page) 1 | [] => 1 end)%Z].

(** [s] has no ["{"]. *)
Fixpoint no_brace (s : string) : bool :=
  match s with
  | EmptyString => true
  | String c s' => negb (Ascii.eqb c "{"%char) && no_brace s'
  end.

(* ------------------------------------------------------------------ *)
(** ** The pdf-parse variant of the processor

    The second [PDFProcessor] of the sources reads the file with
    [readFile] and [pdf-parse]; its [extractPage] and [extractRange] are
    the same code as above and [searchPDF] is the plain branch of the
    one above. Its records have no outline. *)
Module PdfParse.

(** What [pdf(dataBuffer)] gives: [text] ([""] for a falsy one),
    [numpages] and [info]. *)
Record ParseData := mkParseData {
  pd_text : string; pd_numpages : Z; pd_info : option Info
}.

Definition ff : ascii := "012"%char.

(** [text.split(/\f/)] *)
Fixpoint splitFF (s : string) : list string :=
  match s with
  | EmptyString => [""]
  | String c s' =>
      let rest := splitFF s' in
      if Ascii.eqb c ff then "" :: rest
      else match rest with
           | r :: rs => String c r :: rs
           | [] => [String c ""]
           end
  end.

Section Load.
Variable md5_hex : string -> string.

Definition loadPDF (readFile : string -> option (list Byte.byte))
    (parse : list Byte.byte -> option ParseData) (p : string) (loadedPDFs : Registry)
    : result (string * Z) * Registry :=
  match readFile p with
  | None => (Err (FailedToLoad ReadFileRejected), loadedPDFs)
  | Some dataBuffer =>
      match parse dataBuffer with
      | None => (Err (FailedToLoad ParseRejected), loadedPDFs)
      | Some data =>
          let pid := md5_hex p in
          let pgs := if String.eqb (pd_text data) "" then [] else splitFF (pd_text data) in
          (Ok (pid, pd_numpages data),
           <[pid := mkLoadedPDF pid p (pd_numpages data) pgs (pd_info data) None]> loadedPDFs)
      end
  end.

End Load.

Definition searchPDF (loadedPDFs : Registry) (pdfId query : string) (caseSensitive : bool)
    : option (result (list SearchResult)) :=
  match loadedPDFs !! pdfId with
  | None => Some (Err PDFNotFound)
  | Some pdf => option_map Ok (searchPages (plainSearchPage caseSensitive query) 0 (pages pdf))
  end.

End PdfParse.

(* ------------------------------------------------------------------ *)
(** ** Registry invariants *)

(** Every record is stored under the digest of its own location. *)
Definition reg_keyed (md5_hex : string -> string) (loadedPDFs : Registry) : Prop :=
  forall k pdf, loadedPDFs !! k = Some pdf -> k = md5_hex (path pdf) /\ id pdf = k.

(** No two entries hold records of the same location. *)
Definition one_record_per_location (loadedPDFs : Registry) : Prop :=
  forall k1 k2 pdf1 pdf2, loadedPDFs !! k1 = Some pdf1 -> loadedPDFs !! k2 = Some pdf2 ->
    path pdf1 = path pdf2 -> k1 = k2.

(** Concrete inputs the properties are tried on. *)
Definition sample_pdf : LoadedPDF :=
  mkLoadedPDF "k" "doc.pdf" 3 ["first"; ""; "third"] None None.

Definition sample_registry : Registry := {[ "k" := sample_pdf ]}.

(** A two-page document whose second page fails to give its text. *)
Definition sample_doc : PDFDocument :=
  mkPDFDocument 2
    (fun i => match i with
              | 1 => Some (mkPDFPage (Some (5%Z, 0%Z))
                             (Some [TextItem "Hello" 700; TextItem "World" 680]))
              | 2 => Some (mkPDFPage (Some (9%Z, 0%Z)) None)
              | _ => None
              end)
    (Some None) None (fun _ => None).

(** A file system that has [doc.pdf] only; no network. *)
Definition sample_env : Env :=
  mkEnv (fun _ => None)
    (fun f => if String.eqb f "doc.pdf" then Some [] else None)
    (fun _ => Some sample_doc).

(** The same location, now holding a one-page document. *)
Definition sample_env' : Env :=
  mkEnv (fun _ => None)
    (fun f => if String.eqb f "doc.pdf" then Some [Byte.x01] else None)
    (fun _ => Some (mkPDFDocument 1 (fun _ => None) None None (fun _ => None))).

Definition sample_md5 (s : string) : string := "md5:" +:+ s.

(** A two-page document for the search examples. *)
Definition hello_pdf : LoadedPDF :=
  mkLoadedPDF "h" "hello.pdf" 2 ["Hello World"; "nothing here"] None None.

Definition hello_registry : Registry := {[ "h" := hello_pdf ]}.

(** The rounds of the global [exec] loop on [pageText] from [lastIndex]
    [li]: round [k] calls [exec] at [lis[k]], which finds [ms[k]] at
    [ps[k]]; [lis[k+1]] is the [lastIndex] after the zero-width guard;
    [exec] at the last [lastIndex] finds nothing. *)
Definition exec_rounds `{RegExpEngine} (re : rx_pattern) (pageText : string) (li : nat)
    (ms : list SearchMatch) (ps lis : list nat) : Prop :=
  length ps = length ms /\ length lis = S (length ms) /\ lis !! 0 = Some li
  /\ (forall k p m l, ps !! k = Some p -> ms !! k = Some m -> lis !! k = Some l ->
        rx_exec re pageText l = Some (p, m_text m)
        /\ m_context m = contextOf pageText p (String.length (m_text m))
        /\ lis !! S k = Some (let e := p + String.length (m_text m) in
                              if Nat.eqb p e then S e else e))
  /\ (forall l, lis !! length ms = Some l -> rx_exec re pageText l = None).

(** The pattern [o*], as [newRegExp "o*" "gi"] compiles it. *)
Definition o_star : MiniRegExp.Compiled :=
  MiniRegExp.mkCompiled
    (MiniRegExp.RSeq (MiniRegExp.RStar true (MiniRegExp.RChar "o")) MiniRegExp.REmpty) true.

(** A one-page US-letter document without images, whose page paints to
    an (empty) PNG buffer. *)
Definition letter_page : ImagePage :=
  mkImagePage (Some []) (fun _ => None) (612, 792)%Q (fun _ _ => Some []).

Definition letter_doc : ImageDoc :=
  mkImageDoc 1 (fun n => if (n =? 1)%Z then Some letter_page else None).

(** The same page, but [page.render] throws. *)
Definition unpaintable_page : ImagePage :=
  mkImagePage (Some []) (fun _ => None) (612, 792)%Q (fun _ _ => None).

Definition unpaintable_doc : ImageDoc :=
  mkImageDoc 1 (fun n => if (n =? 1)%Z then Some unpaintable_page else None).

(** A page painting a JPEG, an opcode that paints nothing, a raw 2x1
    image, and an image [page.objs] does not have. *)
Definition photo_raw : ImageObj := mkImageObj (Some [1; 2; 3]%Z) 2 1 3.

Definition photo_page : ImagePage :=
  mkImagePage (Some [(85, "img0"); (10, "x"); (82, "img1"); (85, "gone")]%Z)
    (fun name => if String.eqb name "img0" then Some (mkImageObj (Some [255; 216; 1]%Z) 4 4 0)
                 else if String.eqb name "img1" then Some photo_raw else None)
    (100, 100)%Q (fun _ _ => Some []).

(** Three pages: the photo page, then two letter pages without images. *)
Definition photo_doc : ImageDoc :=
  mkImageDoc 3 (fun n => if (n =? 1)%Z then Some photo_page
                         else if (n =? 2)%Z || (n =? 3)%Z then Some letter_page else None).

(** A two-page document with a two-level outline: "Intro" points at the
    second page, its child "Part" has an empty destination name. *)
Definition outline_doc : PDFDocument :=
  mkPDFDocument 2
    (fun i => match i with
              | 1 => Some (mkPDFPage (Some (5%Z, 0%Z)) (Some [TextItem "one" 700]))
              | 2 => Some (mkPDFPage (Some (9%Z, 0%Z)) (Some [TextItem "two" 700]))
              | _ => None
              end)
    (Some (Some [("Title", "Report")]))
    (Some [RawItem "Intro" (Some (DestExplicit [DestRef 9 0])) [RawItem "Part" (Some (DestNamed "")) []]])
    (fun _ => None).

Definition outline_env : Env :=
  mkEnv (fun _ => None)
    (fun f => if String.eqb f "report.pdf" then Some [] else None)
    (fun _ => Some outline_doc).

(* ================================================================== *)
(** * Properties *)

Lemma or_empty_Some (s : string) : or_empty (Some s) = s.
Proof. simpl. destruct (String.eqb_spec s ""); congruence. Qed.

Lemma wf_lookup (pdf : LoadedPDF) (p : Z) :
  wf_pdf pdf -> (1 <= p <= pageCount pdf)%Z ->
  exists text, pages pdf !! Z.to_nat (p - 1) = Some text.
Proof.
  intros [H0 Hlen] Hp. apply lookup_lt_is_Some_2. rewrite Hlen. lia.
Qed.

(** C1. [extractPage(id, p)] answers the stored text of page [p] exactly
    when [1 <= p <= pageCount] and throws "Invalid page number" for every
    other [p]; an unknown [id] throws "PDF not found". *)
Theorem extractPage_defined_exactly_in_range (loadedPDFs : Registry) (pdfId : string) (p : Z) :
  (loadedPDFs !! pdfId = None -> extractPage loadedPDFs pdfId p = Err PDFNotFound) /\
  (forall pdf, loadedPDFs !! pdfId = Some pdf -> wf_pdf pdf ->
     ((1 <= p <= pageCount pdf)%Z ->
        exists text, pages pdf !! Z.to_nat (p - 1) = Some text
                     /\ extractPage loadedPDFs pdfId p = Ok text) /\
     ((p < 1 \/ pageCount pdf < p)%Z ->
        extractPage loadedPDFs pdfId p = Err (InvalidPageNumber (pageCount pdf)))).
Proof.
  unfold extractPage. split; [intros ->; reflexivity |].
  intros pdf Hl Hwf. rewrite Hl. split.
  - intros Hp. destruct (wf_lookup pdf p Hwf Hp) as [text Ht].
    exists text. split; [exact Ht |].
    destruct (Z.ltb_spec p 1), (Z.ltb_spec (pageCount pdf) p); try lia.
    simpl. rewrite Ht, or_empty_Some. reflexivity.
  - intros Hp.
    destruct (Z.ltb_spec p 1), (Z.ltb_spec (pageCount pdf) p); try lia; reflexivity.
Qed.

Lemma sample_wf : wf_pdf sample_pdf.
Proof. split; simpl; lia || reflexivity. Qed.

Lemma extractPage_defined_exactly_in_range_witness :
  (exists text, pages sample_pdf !! Z.to_nat (3 - 1) = Some text
                /\ extractPage sample_registry "k" 3 = Ok text)
  /\ extractPage sample_registry "k" 4 = Err (InvalidPageNumber 3)
  /\ extractPage sample_registry "nope" 1 = Err PDFNotFound.
Proof.
  split; [| split].
  - apply (proj2 (extractPage_defined_exactly_in_range sample_registry "k" 3)
             sample_pdf eq_refl sample_wf).
    simpl; lia.
  - apply (proj2 (extractPage_defined_exactly_in_range sample_registry "k" 4)
             sample_pdf eq_refl sample_wf).
    simpl; lia.
  - apply (proj1 (extractPage_defined_exactly_in_range sample_registry "nope" 1)).
    reflexivity.
Defined.

Lemma Z_range_lookup (a b : Z) (k : nat) :
  k < length (Z_range a b) -> Z_range a b !! k = Some (a + Z.of_nat k)%Z.
Proof.
  unfold Z_range. rewrite length_map, length_seq. intros Hk.
  rewrite list_lookup_fmap, lookup_seq_lt by exact Hk. reflexivity.
Qed.

(** C2. For [1 <= a <= b <= pageCount], [extractRange(id, a, b)] is the
    ["\n\n"]-join of exactly [b - a + 1] blocks; block [k] is the marker
    ["--- Page " ^ (a + k) ^ " ---"], a newline and the stored text of
    page [a + k], so the markers run over [a..b] in ascending order. For
    [a > b], [a < 1] or [b > pageCount] it throws "Invalid page range". *)
Theorem extractRange_blocks (loadedPDFs : Registry) (pdfId : string) (a b : Z) :
  (loadedPDFs !! pdfId = None -> extractRange loadedPDFs pdfId a b = Err PDFNotFound) /\
  (forall pdf, loadedPDFs !! pdfId = Some pdf -> wf_pdf pdf ->
     ((1 <= a /\ a <= b /\ b <= pageCount pdf)%Z ->
        exists blocks,
          extractRange loadedPDFs pdfId a b = Ok (join (nl +:+ nl) blocks)
          /\ length blocks = Z.to_nat (b - a + 1)
          /\ forall k, k < length blocks ->
               exists text, pages pdf !! Z.to_nat (a + Z.of_nat k - 1) = Some text
                 /\ blocks !! k = Some (page_marker (a + Z.of_nat k) +:+ nl +:+ text)) /\
     ((b < a \/ a < 1 \/ pageCount pdf < b)%Z ->
        extractRange loadedPDFs pdfId a b = Err (InvalidPageRange (pageCount pdf)))).
Proof.
  unfold extractRange. split; [intros ->; reflexivity |].
  intros pdf Hl Hwf. rewrite Hl. split.
  - intros Hab. exists (map (range_block pdf) (Z_range a b)).
    destruct (Z.ltb_spec a 1), (Z.ltb_spec (pageCount pdf) b), (Z.ltb_spec b a);
      try lia.
    split; [reflexivity |].
    assert (Hlen : length (Z_range a b) = Z.to_nat (b - a + 1))
      by (unfold Z_range; rewrite length_map, length_seq; reflexivity).
    rewrite length_map, Hlen. split; [reflexivity |].
    intros k Hk.
    destruct (wf_lookup pdf (a + Z.of_nat k) Hwf) as [text Ht]; [lia |].
    exists text. split; [exact Ht |].
    rewrite list_lookup_fmap, Z_range_lookup by lia. simpl.
    unfold range_block. rewrite Ht, or_empty_Some. reflexivity.
  - intros Hab.
    destruct (Z.ltb_spec a 1), (Z.ltb_spec (pageCount pdf) b), (Z.ltb_spec b a);
      try lia; reflexivity.
Qed.

Lemma extractRange_blocks_witness :
  (exists blocks,
     extractRange sample_registry "k" 1 3 = Ok (join (nl +:+ nl) blocks)
     /\ length blocks = Z.to_nat (3 - 1 + 1)
     /\ forall k, k < length blocks ->
          exists text, pages sample_pdf !! Z.to_nat (1 + Z.of_nat k - 1) = Some text
            /\ blocks !! k = Some (page_marker (1 + Z.of_nat k) +:+ nl +:+ text))
  /\ extractRange sample_registry "k" 3 2 = Err (InvalidPageRange 3).
Proof.
  split.
  - apply (proj2 (extractRange_blocks sample_registry "k" 1 3) sample_pdf eq_refl sample_wf).
    simpl; lia.
  - apply (proj2 (extractRange_blocks sample_registry "k" 3 2) sample_pdf eq_refl sample_wf).
    lia.
Defined.

Example extractRange_sample :
  extractRange sample_registry "k" 2 3
  = Ok ("--- Page 2 ---" +:+ nl +:+ "" +:+ nl +:+ nl +:+ "--- Page 3 ---" +:+ nl +:+ "third").
Proof. reflexivity. Qed.

Lemma extractPages_lookup (doc : PDFDocument) (i : nat) :
  i < numPages doc -> extractPages doc !! i = Some (pageTextOf doc (S i)).
Proof.
  intros Hi. unfold extractPages.
  rewrite list_lookup_fmap, lookup_seq_lt by exact Hi. reflexivity.
Qed.

Lemma length_extractPages (doc : PDFDocument) : length (extractPages doc) = numPages doc.
Proof. unfold extractPages. by rewrite length_map, length_seq. Qed.

Lemma loadPDF_Ok (md5_hex : string -> string) (env : Env) (p : string)
    (loadedPDFs reg' : Registry) (r : string * Z) :
  loadPDF md5_hex env p loadedPDFs = (Ok r, reg') ->
  exists bytes doc, readSource env p = Ok bytes /\ getDocument env bytes = Some doc
    /\ r = (md5_hex p, Z.of_nat (numPages doc))
    /\ reg' = <[md5_hex p := mkLoadedPDF (md5_hex p) p (Z.of_nat (numPages doc))
                               (extractPages doc) (docMetadata doc) (docOutline doc)]> loadedPDFs.
Proof.
  unfold loadPDF. destruct (readSource env p) as [bytes | e] eqn:Hr; [| discriminate].
  destruct (getDocument env bytes) as [doc |] eqn:Hd; [| discriminate].
  intros [= <- <-]. exists bytes, doc. auto.
Qed.

Lemma loadPDF_Err (md5_hex : string -> string) (env : Env) (p : string)
    (loadedPDFs reg' : Registry) (e : PdfError) :
  loadPDF md5_hex env p loadedPDFs = (Err e, reg') ->
  reg' = loadedPDFs /\ exists why, e = FailedToLoad why.
Proof.
  unfold loadPDF. destruct (readSource env p) as [bytes | e'] eqn:Hr.
  - destruct (getDocument env bytes); [discriminate |].
    intros [= <- <-]. eauto.
  - intros [= <- <-]. split; [reflexivity |].
    revert Hr. unfold readSource.
    destruct (startsWith p "http://" || startsWith p "https://").
    + destruct (fetch env p) as [[[] ?] |]; intros [= <-]; eauto.
    + destruct (readFile env p); intros [= <-]; eauto.
Qed.

(** C8. A successful load stores a record with exactly one text per page:
    [pages] has length [pageCount], entry [i] is the text of page [i + 1],
    and a page whose [getPage] or [getTextContent] rejects contributes
    [""] at its position. *)
Theorem loadPDF_one_text_per_page (md5_hex : string -> string) (env : Env) (p : string)
    (loadedPDFs reg' : Registry) (pid : string) (n : Z) :
  loadPDF md5_hex env p loadedPDFs = (Ok (pid, n), reg') ->
  exists bytes doc pdf,
    readSource env p = Ok bytes /\ getDocument env bytes = Some doc
    /\ reg' !! pid = Some pdf /\ pageCount pdf = n /\ n = Z.of_nat (numPages doc)
    /\ wf_pdf pdf
    /\ (forall i, i < numPages doc -> pages pdf !! i = Some (pageTextOf doc (S i)))
    /\ (forall i, i < numPages doc ->
          (getPage doc (S i) = None
           \/ exists pg, getPage doc (S i) = Some pg /\ page_textContent pg = None) ->
          pages pdf !! i = Some "").
Proof.
  intros Hl. destruct (loadPDF_Ok _ _ _ _ _ _ Hl) as (bytes & doc & Hrs & Hgd & Hr & ->).
  injection Hr as -> ->.
  exists bytes, doc. eexists. split; [exact Hrs |]. split; [exact Hgd |].
  split; [apply lookup_insert_eq |].
  split; [reflexivity |]. split; [reflexivity |].
  split; [split; simpl; [lia | rewrite length_extractPages; lia] |].
  split.
  - intros i Hi. apply extractPages_lookup, Hi.
  - intros i Hi Hfail. simpl. rewrite extractPages_lookup by exact Hi.
    unfold pageTextOf. destruct Hfail as [-> | (pg & -> & ->)]; reflexivity.
Qed.

Lemma loadPDF_one_text_per_page_witness :
  exists bytes doc pdf,
    readSource sample_env "doc.pdf" = Ok bytes /\ getDocument sample_env bytes = Some doc
    /\ snd (loadPDF sample_md5 sample_env "doc.pdf" ∅) !! "md5:doc.pdf" = Some pdf
    /\ pageCount pdf = 2%Z /\ 2%Z = Z.of_nat (numPages doc)
    /\ wf_pdf pdf
    /\ (forall i, i < numPages doc -> pages pdf !! i = Some (pageTextOf doc (S i)))
    /\ (forall i, i < numPages doc ->
          (getPage doc (S i) = None
           \/ exists pg, getPage doc (S i) = Some pg /\ page_textContent pg = None) ->
          pages pdf !! i = Some "").
Proof.
  apply (loadPDF_one_text_per_page sample_md5 sample_env "doc.pdf" ∅).
  vm_compute. reflexivity.
Defined.

Example sample_doc_pages :
  pages <$> (snd (loadPDF sample_md5 sample_env "doc.pdf" ∅) !! "md5:doc.pdf")
  = Some ["Hello" +:+ nl +:+ "World"; ""].
Proof. vm_compute. reflexivity. Qed.

Lemma reg_keyed_one_record (md5_hex : string -> string) (loadedPDFs : Registry) :
  reg_keyed md5_hex loadedPDFs -> one_record_per_location loadedPDFs.
Proof.
  intros Hk k1 k2 pdf1 pdf2 H1 H2 Hp.
  destruct (Hk _ _ H1) as [-> _], (Hk _ _ H2) as [-> _]. by rewrite Hp.
Qed.

Lemma loadPDF_keeps_keyed (md5_hex : string -> string) (env : Env) (p : string)
    (loadedPDFs reg' : Registry) (r : result (string * Z)) :
  reg_keyed md5_hex loadedPDFs -> loadPDF md5_hex env p loadedPDFs = (r, reg') ->
  reg_keyed md5_hex reg'.
Proof.
  intros Hk Hl. destruct r as [r | e].
  - destruct (loadPDF_Ok _ _ _ _ _ _ Hl) as (bytes & doc & _ & _ & _ & ->).
    intros k pdf. rewrite lookup_insert.
    case_decide as Hkey.
    + intros [= <-]. subst k. auto.
    + apply Hk.
  - destruct (loadPDF_Err _ _ _ _ _ _ Hl) as [-> _]. exact Hk.
Qed.

(** C9. The id is the digest of the location string alone: two loads of
    the same location, whatever bytes they read, answer the same id
    [md5_hex p]; the second one stores its new record under that id in
    place of the first (no other entry changes, the size stays), and a
    registry keyed by location keeps at most one record per location. *)
Theorem loadPDF_id_is_location_digest (md5_hex : string -> string) (p : string)
    (env1 env2 : Env) (loadedPDFs reg1 reg2 : Registry) (id1 id2 : string) (n1 n2 : Z) :
  loadPDF md5_hex env1 p loadedPDFs = (Ok (id1, n1), reg1) ->
  loadPDF md5_hex env2 p reg1 = (Ok (id2, n2), reg2) ->
  id1 = md5_hex p /\ id2 = id1
  /\ (exists pdf1, reg1 !! id1 = Some pdf1 /\ path pdf1 = p /\ pageCount pdf1 = n1)
  /\ (exists pdf2, reg2 !! id1 = Some pdf2 /\ path pdf2 = p /\ pageCount pdf2 = n2)
  /\ (forall k, k <> id1 -> reg2 !! k = reg1 !! k)
  /\ size reg2 = size reg1
  /\ (reg_keyed md5_hex loadedPDFs ->
      reg_keyed md5_hex reg2 /\ one_record_per_location reg2).
Proof.
  intros H1 H2.
  destruct (loadPDF_Ok _ _ _ _ _ _ H1) as (b1 & d1 & _ & _ & Hr1 & Hreg1).
  destruct (loadPDF_Ok _ _ _ _ _ _ H2) as (b2 & d2 & _ & _ & Hr2 & Hreg2).
  injection Hr1 as -> ->. injection Hr2 as -> ->.
  split; [reflexivity |]. split; [reflexivity |].
  split.
  { rewrite Hreg1, lookup_insert_eq. eexists; split; [reflexivity | split; reflexivity]. }
  split.
  { rewrite Hreg2, lookup_insert_eq. eexists; split; [reflexivity | split; reflexivity]. }
  split; [intros k Hk; rewrite Hreg2; by apply lookup_insert_ne |].
  split.
  - rewrite Hreg2. apply map_size_insert_Some. rewrite Hreg1, lookup_insert_eq. by eexists.
  - intros Hk.
    assert (Hk1 : reg_keyed md5_hex reg1)
      by (eapply loadPDF_keeps_keyed; [exact Hk | exact H1]).
    assert (Hk2 : reg_keyed md5_hex reg2)
      by (eapply loadPDF_keeps_keyed; [exact Hk1 | exact H2]).
    split; [exact Hk2 | eapply reg_keyed_one_record, Hk2].
Qed.

Lemma loadPDF_id_is_location_digest_witness :
  let r1 := loadPDF sample_md5 sample_env "doc.pdf" ∅ in
  let r2 := loadPDF sample_md5 sample_env' "doc.pdf" (snd r1) in
  "md5:doc.pdf" = sample_md5 "doc.pdf" /\ "md5:doc.pdf" = "md5:doc.pdf"
  /\ (exists pdf1, snd r1 !! "md5:doc.pdf" = Some pdf1 /\ path pdf1 = "doc.pdf"
                   /\ pageCount pdf1 = 2%Z)
  /\ (exists pdf2, snd r2 !! "md5:doc.pdf" = Some pdf2 /\ path pdf2 = "doc.pdf"
                   /\ pageCount pdf2 = 1%Z)
  /\ (forall k, k <> "md5:doc.pdf" -> snd r2 !! k = snd r1 !! k)
  /\ size (snd r2) = size (snd r1)
  /\ (reg_keyed sample_md5 ∅ ->
      reg_keyed sample_md5 (snd r2) /\ one_record_per_location (snd r2)).
Proof.
  intros r1 r2.
  apply (loadPDF_id_is_location_digest sample_md5 "doc.pdf" sample_env sample_env' ∅
           (snd r1) (snd r2) "md5:doc.pdf" "md5:doc.pdf" 2 1);
    vm_compute; reflexivity.
Defined.

(** C10. [loadPDF] is atomic for the registry: a failing load (fetch,
    read or parse) leaves the registry as it was, so an earlier record
    under the same id stays retrievable; a successful one adds a single
    record, built from the page texts, metadata and outline already
    computed. *)
Theorem loadPDF_atomic (md5_hex : string -> string) (env : Env) (p : string)
    (loadedPDFs : Registry) :
  (forall e reg', loadPDF md5_hex env p loadedPDFs = (Err e, reg') ->
     reg' = loadedPDFs
     /\ (forall k, reg' !! k = loadedPDFs !! k)
     /\ exists why, e = FailedToLoad why) /\
  (forall r reg', loadPDF md5_hex env p loadedPDFs = (Ok r, reg') ->
     exists bytes doc, readSource env p = Ok bytes /\ getDocument env bytes = Some doc
       /\ reg' = <[md5_hex p := mkLoadedPDF (md5_hex p) p (Z.of_nat (numPages doc))
                                   (extractPages doc) (docMetadata doc)
                                   (docOutline doc)]> loadedPDFs).
Proof.
  split.
  - intros e reg' Hl. destruct (loadPDF_Err _ _ _ _ _ _ Hl) as [-> Hwhy].
    split; [reflexivity | split; [reflexivity | exact Hwhy]].
  - intros r reg' Hl.
    destruct (loadPDF_Ok _ _ _ _ _ _ Hl) as (bytes & doc & Hr & Hd & _ & ->).
    exists bytes, doc. auto.
Qed.

Lemma loadPDF_atomic_witness :
  snd (loadPDF sample_md5 sample_env "missing.pdf" sample_registry) = sample_registry
  /\ (forall k, snd (loadPDF sample_md5 sample_env "missing.pdf" sample_registry) !! k
                = sample_registry !! k)
  /\ exists why, FailedToLoad ReadFileRejected = FailedToLoad why.
Proof.
  apply (proj1 (loadPDF_atomic sample_md5 sample_env "missing.pdf" sample_registry)).
  vm_compute. reflexivity.
Defined.

(* ------------------------------------------------------------------ *)
(** ** Plain search *)

Lemma find_seq_Some (f : nat -> bool) (a n k : nat) :
  find f (seq a n) = Some k ->
  a <= k < a + n /\ f k = true /\ forall j, a <= j < k -> f j = false.
Proof.
  revert a. induction n as [| n IH]; intros a; simpl; [discriminate |].
  destruct (f a) eqn:Hf.
  - intros [= <-]. split; [lia |]. split; [exact Hf | intros j Hj; lia].
  - intros Hk. destruct (IH (S a) Hk) as (Hr & Hfk & Hbefore).
    split; [lia |]. split; [exact Hfk |].
    intros j Hj. destruct (Nat.eq_dec j a) as [-> | Hne]; [exact Hf |].
    apply Hbefore. lia.
Qed.

Lemma find_seq_None (f : nat -> bool) (a n : nat) :
  find f (seq a n) = None -> forall j, a <= j < a + n -> f j = false.
Proof.
  revert a. induction n as [| n IH]; intros a; simpl; [intros _ j Hj; lia |].
  destruct (f a) eqn:Hf; [discriminate |].
  intros Hn j Hj. destruct (Nat.eq_dec j a) as [-> | Hne]; [exact Hf |].
  apply (IH (S a) Hn). lia.
Qed.

Lemma occursAt_bound (s q : string) (k : nat) :
  occursAt s q k = true -> k + String.length q <= String.length s.
Proof. unfold occursAt. rewrite andb_true_iff, Nat.leb_le. tauto. Qed.

Lemma indexOf_Some (s q : string) (pos k : nat) :
  indexOf s q pos = Some k ->
  pos <= k /\ occursAt s q k = true /\ forall j, pos <= j < k -> occursAt s q j = false.
Proof.
  unfold indexOf. intros H. destruct (find_seq_Some _ _ _ _ H) as (? & ? & ?). auto with lia.
Qed.

Lemma indexOf_None (s q : string) (pos : nat) :
  indexOf s q pos = None -> forall j, pos <= j -> occursAt s q j = false.
Proof.
  unfold indexOf. intros H j Hj.
  destruct (Nat.le_gt_cases j (String.length s)) as [Hle | Hgt].
  - apply (find_seq_None _ _ _ H). lia.
  - destruct (occursAt s q j) eqn:Ho; [| reflexivity].
    apply occursAt_bound in Ho. lia.
Qed.

Lemma length_toLowerCase (s : string) : String.length (toLowerCase s) = String.length s.
Proof. induction s as [| c s IH]; simpl; [reflexivity | by rewrite IH]. Qed.

(** What one run of the scan produced: the positions it stopped at, in
    order, each an occurrence, each at least one query length past the
    previous one, covering every occurrence from [pos] on; the match
    records are built from those positions. *)
Lemma plainScan_positions (pageText searchText query searchQuery : string) :
  forall fuel pos ms,
  plainScan pageText searchText query searchQuery pos fuel = Some ms ->
  exists ps : list nat,
    length ps = length ms
    /\ (forall k p, ps !! k = Some p -> pos <= p /\ occursAt searchText searchQuery p = true)
    /\ (forall k p p', ps !! k = Some p -> ps !! S k = Some p' ->
          p + String.length searchQuery <= p')
    /\ (forall k p m, ps !! k = Some p -> ms !! k = Some m ->
          m = mkSearchMatch (substring pageText p (p + String.length query))
                            (contextOf pageText p (String.length searchQuery)))
    /\ (forall p, pos <= p -> occursAt searchText searchQuery p = true ->
          exists k pk, ps !! k = Some pk /\ pk <= p < pk + String.length searchQuery).
Proof.
  induction fuel as [| fuel IH]; intros pos ms; simpl; [discriminate |].
  destruct (indexOf searchText searchQuery pos) as [p0 |] eqn:Hi.
  - destruct (plainScan pageText searchText query searchQuery
                (p0 + String.length searchQuery) fuel) as [ms' |] eqn:Hrec;
      [| discriminate].
    intros [= <-].
    destruct (indexOf_Some _ _ _ _ Hi) as (Hle & Hocc & Hfirst).
    destruct (IH _ _ Hrec) as (ps & Hlen & Hps & Hgap & Hms & Hcover).
    exists (p0 :: ps). split; [simpl; lia |].
    split; [| split; [| split]].
    + intros [| k] p; simpl; [intros [= <-]; auto |].
      intros Hk. destruct (Hps _ _ Hk). split; [lia | assumption].
    + intros [| k] p p'; simpl.
      * intros [= <-] Hk. destruct (Hps _ _ Hk). lia.
      * apply Hgap.
    + intros [| k] p m; simpl; [intros [= <-] [= <-]; reflexivity | apply Hms].
    + intros p Hp Hoccp.
      destruct (Nat.lt_ge_cases p p0) as [Hlt | Hge].
      * rewrite Hfirst in Hoccp; [discriminate | lia].
      * destruct (Nat.lt_ge_cases p (p0 + String.length searchQuery)) as [Hin | Hout].
        -- exists 0, p0. simpl. auto with lia.
        -- destruct (Hcover p Hout Hoccp) as (k & pk & Hk & Hr).
           exists (S k), pk. auto.
  - intros [= <-]. exists []. split; [reflexivity |].
    split; [intros k p Hk; by rewrite lookup_nil in Hk |].
    split; [intros k p p' Hk; by rewrite lookup_nil in Hk |].
    split; [intros k p m Hk; by rewrite lookup_nil in Hk |].
    intros p Hp Hoccp. rewrite (indexOf_None _ _ _ Hi p Hp) in Hoccp. discriminate.
Qed.

(** The fuel of [plainSearchPage] is enough for a non-empty query. *)
Lemma plainScan_stops (pageText searchText query searchQuery : string) :
  0 < String.length searchQuery ->
  forall fuel pos, 1 <= fuel -> S (String.length searchText) <= fuel + pos ->
  exists ms, plainScan pageText searchText query searchQuery pos fuel = Some ms.
Proof.
  intros Hq. induction fuel as [| fuel IH]; intros pos H1 Hf; [lia |]. simpl.
  destruct (indexOf searchText searchQuery pos) as [p0 |] eqn:Hi; [| eauto].
  destruct (indexOf_Some _ _ _ _ Hi) as (Hle & Hocc & _).
  apply occursAt_bound in Hocc.
  destruct (IH (p0 + String.length searchQuery)) as [ms Hms]; [lia | lia |].
  rewrite Hms. eauto.
Qed.

Lemma substring_0_len (n : nat) (s : string) : String.substring n 0 s = "".
Proof.
  revert n. induction s as [| c s IH]; intros [| n]; simpl; auto.
Qed.

(** An empty query is found again at the same position: the loop never
    stops, whatever the fuel. *)
Lemma plainScan_empty_query_runs_forever (pageText searchText query : string) :
  forall fuel pos, pos <= String.length searchText ->
  plainScan pageText searchText query "" pos fuel = None.
Proof.
  induction fuel as [| fuel IH]; intros pos Hpos; simpl; [reflexivity |].
  assert (Hi : indexOf searchText "" pos = Some pos).
  { unfold indexOf. replace (S (String.length searchText) - pos)
      with (S (String.length searchText - pos)) by lia.
    simpl. unfold occursAt. simpl. rewrite substring_0_len. simpl.
    rewrite Nat.add_0_r. apply Nat.leb_le in Hpos. by rewrite Hpos. }
  rewrite Hi, Nat.add_0_r, IH by exact Hpos. reflexivity.
Qed.

Lemma searchPages_spec (f : string -> option (list SearchMatch)) :
  forall pgs index rs, searchPages f index pgs = Some rs ->
  (forall k r, rs !! k = Some r ->
     exists i pageText, pgs !! i = Some pageText /\ sr_page r = (index + 1 + Z.of_nat i)%Z
       /\ f pageText = Some (sr_matches r) /\ sr_matches r <> [])
  /\ (forall k1 k2 r1 r2, k1 < k2 -> rs !! k1 = Some r1 -> rs !! k2 = Some r2 ->
       (sr_page r1 < sr_page r2)%Z)
  /\ (forall i pageText ms, pgs !! i = Some pageText -> f pageText = Some ms -> ms <> [] ->
       exists k r, rs !! k = Some r /\ sr_page r = (index + 1 + Z.of_nat i)%Z
         /\ sr_matches r = ms).
Proof.
  induction pgs as [| t pgs IH]; intros index rs; simpl.
  - intros [= <-]. split; [intros k r Hk; by rewrite lookup_nil in Hk |].
    split; [intros k1 k2 r1 r2 _ Hk; by rewrite lookup_nil in Hk |].
    intros i pageText ms Hi. by rewrite lookup_nil in Hi.
  - destruct (f t) as [ms |] eqn:Hf; [| discriminate].
    destruct (searchPages f (index + 1) pgs) as [rs' |] eqn:Hrec; [| discriminate].
    destruct (IH _ _ Hrec) as (Hin & Hord & Hall).
    assert (Hge : forall k r, rs' !! k = Some r -> (index + 2 <= sr_page r)%Z).
    { intros k r Hk. destruct (Hin _ _ Hk) as (i & ? & _ & -> & _). lia. }
    intros Hrs. split; [| split].
    + intros k r Hk.
      destruct ms as [| m ms0]; injection Hrs as <-.
      * destruct (Hin _ _ Hk) as (i & pt & Hi & Hp & Hfp & Hne).
        exists (S i), pt. split; [exact Hi |]. split; [lia | auto].
      * destruct k as [| k]; simpl in Hk.
        -- injection Hk as <-. exists 0, t. simpl. split; [reflexivity |].
           split; [lia | split; [exact Hf | discriminate]].
        -- destruct (Hin _ _ Hk) as (i & pt & Hi & Hp & Hfp & Hne).
           exists (S i), pt. split; [exact Hi |]. split; [lia | auto].
    + intros k1 k2 r1 r2 Hlt Hk1 Hk2.
      destruct ms as [| m ms0]; injection Hrs as <-; [eauto |].
      destruct k1 as [| k1], k2 as [| k2]; simpl in Hk1, Hk2; try lia.
      * injection Hk1 as <-. specialize (Hge _ _ Hk2). simpl. lia.
      * eapply Hord; [| exact Hk1 | exact Hk2]. lia.
    + intros [| i] pageText ms' Hi Hfp Hne; simpl in Hi.
      * injection Hi as <-. rewrite Hf in Hfp. injection Hfp as <-.
        destruct ms as [| m ms0]; [congruence |]. injection Hrs as <-.
        exists 0, (mkSearchResult (index + 1) (m :: ms0)). simpl. split; [reflexivity |].
        split; [lia | reflexivity].
      * destruct (Hall _ _ _ Hi Hfp Hne) as (k & r & Hk & Hp & Hm).
        destruct ms as [| m ms0]; injection Hrs as <-.
        -- exists k, r. split; [exact Hk |]. split; [lia | exact Hm].
        -- exists (S k), r. split; [exact Hk |]. split; [lia | exact Hm].
Qed.

(** C3. Case-insensitive plain search lower-cases page and query and scans
    forward: the reported positions are occurrences of the lowered query
    in the lowered page, each at least one query length past the previous
    one (no overlap), and every occurrence lies inside a reported one; a
    match's text is the page text at its position with the query's
    length, its context the text from 50 characters before to 50 after,
    clipped to the page and trimmed. The result lists the pages with
    matches, and only those, in increasing page order. Searching "hello"
    on a page "Hello World" gives the one match "Hello" with context
    "Hello World". *)
Theorem plainSearch_case_insensitive {E : RegExpEngine} :
  (forall query pageText ms, plainSearchPage false query pageText = Some ms ->
     exists ps : list nat,
       length ps = length ms
       /\ (forall k p, ps !! k = Some p ->
             occursAt (toLowerCase pageText) (toLowerCase query) p = true)
       /\ (forall k p p', ps !! k = Some p -> ps !! S k = Some p' ->
             p + String.length query <= p')
       /\ (forall k p m, ps !! k = Some p -> ms !! k = Some m ->
             m_text m = substring pageText p (p + String.length query)
             /\ m_context m = trim (substring pageText (p - 50)
                   (Nat.min (String.length pageText) (p + String.length query + 50))))
       /\ (forall p, occursAt (toLowerCase pageText) (toLowerCase query) p = true ->
             exists k pk, ps !! k = Some pk /\ pk <= p < pk + String.length query))
  /\ (forall loadedPDFs pdfId pdf query rs,
        loadedPDFs !! pdfId = Some pdf ->
        searchPDF loadedPDFs pdfId query false false = Some (Ok rs) ->
        (forall k r, rs !! k = Some r ->
           exists i pageText, pages pdf !! i = Some pageText
             /\ sr_page r = (Z.of_nat i + 1)%Z
             /\ plainSearchPage false query pageText = Some (sr_matches r)
             /\ sr_matches r <> [])
        /\ (forall k1 k2 r1 r2, k1 < k2 -> rs !! k1 = Some r1 -> rs !! k2 = Some r2 ->
              (sr_page r1 < sr_page r2)%Z)
        /\ (forall i pageText ms, pages pdf !! i = Some pageText ->
              plainSearchPage false query pageText = Some ms -> ms <> [] ->
              exists k r, rs !! k = Some r /\ sr_page r = (Z.of_nat i + 1)%Z
                /\ sr_matches r = ms))
  /\ searchPDF hello_registry "h" "hello" false false
     = Some (Ok [mkSearchResult 1 [mkSearchMatch "Hello" "Hello World"]]).
Proof.
  split; [| split].
  - intros query pageText ms Hs. unfold plainSearchPage in Hs.
    destruct (plainScan_positions _ _ _ _ _ _ _ Hs)
      as (ps & Hlen & Hocc & Hgap & Hms & Hcover).
    rewrite length_toLowerCase in Hgap, Hms, Hcover.
    exists ps. split; [exact Hlen |].
    split; [intros k p Hk; apply (Hocc k p Hk) |].
    split; [exact Hgap |].
    split; [| intros p Hp; apply (Hcover p); [lia | exact Hp]].
    intros k p m Hk Hm. rewrite (Hms k p m Hk Hm). split; reflexivity.
  - intros loadedPDFs pdfId pdf query rs Hl Hs.
    unfold searchPDF in Hs. rewrite Hl in Hs.
    destruct (searchPages (plainSearchPage false query) 0 (pages pdf)) as [rs' |] eqn:Hp;
      [| discriminate].
    injection Hs as <-.
    destruct (searchPages_spec _ _ _ _ Hp) as (Hin & Hord & Hall).
    split; [| split; [exact Hord |]].
    + intros k r Hk. destruct (Hin _ _ Hk) as (i & t & ? & ? & ? & ?).
      exists i, t. split; [assumption |]. split; [lia | auto].
    + intros i t ms Hi Hf Hne. destruct (Hall _ _ _ Hi Hf Hne) as (k & r & ? & ? & ?).
      exists k, r. split; [assumption |]. split; [lia | assumption].
  - vm_compute. reflexivity.
Qed.

Lemma plainSearch_case_insensitive_witness :
  exists ps : list nat,
    length ps = length [mkSearchMatch "Hello" "Hello World"]
    /\ (forall k p, ps !! k = Some p ->
          occursAt (toLowerCase "Hello World") (toLowerCase "hello") p = true)
    /\ (forall k p p', ps !! k = Some p -> ps !! S k = Some p' ->
          p + String.length "hello" <= p')
    /\ (forall k p m, ps !! k = Some p -> [mkSearchMatch "Hello" "Hello World"] !! k = Some m ->
          m_text m = substring "Hello World" p (p + String.length "hello")
          /\ m_context m = trim (substring "Hello World" (p - 50)
                (Nat.min (String.length "Hello World") (p + String.length "hello" + 50))))
    /\ (forall p, occursAt (toLowerCase "Hello World") (toLowerCase "hello") p = true ->
          exists k pk, ps !! k = Some pk /\ pk <= p < pk + String.length "hello").
Proof.
  apply (proj1 (plainSearch_case_insensitive (E := MiniRegExp.engine))
           "hello" "Hello World" [mkSearchMatch "Hello" "Hello World"]).
  vm_compute. reflexivity.
Defined.

(** The search folds Latin-1 letters as JS does: "à" (U+00E0) finds "À"
    (U+00C0), while "×" (U+00D7) and "÷" (U+00F7) stay apart. *)
Example plainSearchPage_latin1 :
  option_map (map m_text)
    (plainSearchPage false (String (ascii_of_nat 224) "") (String (ascii_of_nat 192) ""))
  = Some [String (ascii_of_nat 192) ""]
  /\ option_map (map m_text)
    (plainSearchPage false (String (ascii_of_nat 247) "") (String (ascii_of_nat 215) ""))
  = Some [].
Proof. split; vm_compute; reflexivity. Qed.

(* ------------------------------------------------------------------ *)
(** ** The fragment engine meets the [exec] contract *)

Lemma get_Some_lt (s : string) (i : nat) (c : ascii) :
  String.get i s = Some c -> i < String.length s.
Proof.
  revert i. induction s as [| d s IH]; intros [| i]; simpl; try discriminate; [lia |].
  intros H. specialize (IH i H). lia.
Qed.

Lemma length_String_substring (s : string) :
  forall n m, n + m <= String.length s -> String.length (String.substring n m s) = m.
Proof.
  induction s as [| c s IH]; intros [| n] [| m]; simpl; intros H; try lia; auto.
  all: first [f_equal; apply IH; lia | apply IH; lia].
Qed.

Lemma length_substring (s : string) (a b : nat) :
  a <= b <= String.length s -> String.length (substring s a b) = b - a.
Proof.
  intros H. unfold substring.
  rewrite Nat.min_l by lia. rewrite Nat.min_l by lia.
  rewrite Nat.max_r by lia. rewrite Nat.min_l by lia.
  apply length_String_substring. lia.
Qed.

Lemma charAt_bound (s : string) (i j : nat) (p : ascii -> bool) :
  In j (MiniRegExp.charAt s i p) -> i <= j <= String.length s.
Proof.
  unfold MiniRegExp.charAt. destruct (String.get i s) as [c |] eqn:Hg; [| contradiction].
  apply get_Some_lt in Hg. destruct (p c); simpl; [| contradiction].
  intros [<- | []]. lia.
Qed.

Lemma star_bound (len : nat) (greedy : bool) (m : nat -> list nat) :
  (forall i j, i <= len -> In j (m i) -> i <= j <= len) ->
  forall fuel i j, i <= len -> In j (MiniRegExp.star greedy m fuel i) -> i <= j <= len.
Proof.
  intros Hm. induction fuel as [| fuel IH]; intros i j Hi; simpl.
  - intros [<- | []]. lia.
  - assert (Hmore : In j (flat_map (fun x => if Nat.eqb x i then []
                             else MiniRegExp.star greedy m fuel x) (m i)) -> i <= j <= len).
    { rewrite in_flat_map. intros (x & Hx & Hj).
      destruct (Hm _ _ Hi Hx). destruct (Nat.eqb x i); [contradiction |].
      destruct (IH x j); [lia | exact Hj | lia]. }
    destruct greedy; rewrite ?in_app_iff; simpl.
    + intros [H | [<- | []]]; [auto | lia].
    + intros [<- | H]; [lia | auto].
Qed.

Lemma ends_bound (ic : bool) (s : string) :
  forall r i j, i <= String.length s -> In j (MiniRegExp.ends ic s r i) ->
  i <= j <= String.length s.
Proof.
  induction r as [c | | neg items | | | | r1 IH1 r2 IH2 | r1 IH1 r2 IH2
                  | g r1 IH1 | g r1 IH1 | g r1 IH1]; intros i j Hi; simpl.
  - apply charAt_bound.
  - apply charAt_bound.
  - apply charAt_bound.
  - destruct (Nat.eqb i 0); simpl; [intros [<- | []]; lia | contradiction].
  - destruct (Nat.eqb i (String.length s)); simpl; [intros [<- | []]; lia | contradiction].
  - intros [<- | []]. lia.
  - rewrite in_flat_map. intros (x & Hx & Hj).
    destruct (IH1 _ _ Hi Hx). destruct (IH2 x j); [lia | exact Hj | lia].
  - rewrite in_app_iff. intros [H | H]; auto.
  - intros H. exact (star_bound _ g _ IH1 (S (String.length s)) i j Hi H).
  - rewrite in_flat_map. intros (x & Hx & Hj).
    destruct (IH1 _ _ Hi Hx).
    destruct (star_bound (String.length s) g _ IH1 (S (String.length s)) x j);
      [lia | exact Hj | lia].
  - assert (Hf : In j (List.filter (fun j => negb (Nat.eqb j i)) (MiniRegExp.ends ic s r1 i)) ->
                 i <= j <= String.length s).
    { rewrite filter_In. intros [H _]. auto. }
    destruct g; rewrite ?in_app_iff; simpl.
    + intros [H | [<- | []]]; [auto | lia].
    + intros [<- | H]; [lia | auto].
Qed.

Lemma MiniRegExp_exec_contract : @exec_contract MiniRegExp.engine.
Proof.
  split.
  - intros re s li k m. simpl. unfold MiniRegExp.exec.
    destruct (Nat.ltb_spec (String.length s) li) as [Hlt | Hle]; [discriminate |].
    destruct (find _ _) as [k' |] eqn:Hf; [| discriminate].
    apply find_seq_Some in Hf. destruct Hf as (Hk' & _ & _).
    destruct (MiniRegExp.ends _ s _ k') as [| e rest] eqn:He; [discriminate |].
    intros [= <- <-].
    assert (Hb : k' <= e <= String.length s).
    { apply (ends_bound (MiniRegExp.c_ignoreCase re) s (MiniRegExp.c_rx re) k' e); [lia |].
      rewrite He. left; reflexivity. }
    rewrite length_substring by lia.
    split; [lia |]. split; [lia |]. f_equal. lia.
  - intros re s li Hlt. simpl. unfold MiniRegExp.exec.
    destruct (Nat.ltb_spec (String.length s) li); [reflexivity | lia].
Qed.

(* ------------------------------------------------------------------ *)
(** ** Regular-expression search *)

Section RegexProofs.
Context {E : RegExpEngine}.

Lemma regexStep_Some (re : rx_pattern) (pageText : string) (li : nat)
    (m : SearchMatch) (li' : nat) :
  exec_contract -> regexStep re pageText li = Some (m, li') ->
  exists p, rx_exec re pageText li = Some (p, m_text m)
    /\ m_context m = contextOf pageText p (String.length (m_text m))
    /\ li' = (let e := p + String.length (m_text m) in if Nat.eqb p e then S e else e)
    /\ li <= p /\ p < li' /\ p + String.length (m_text m) <= String.length pageText.
Proof.
  intros [Hc _]. unfold regexStep.
  destruct (rx_exec re pageText li) as [[p mt] |] eqn:Hx; [| discriminate].
  intros [= <- <-]. simpl. exists p.
  destruct (Hc _ _ _ _ _ Hx) as (Hle & Hlen & _).
  split; [reflexivity |]. split; [reflexivity |]. split; [reflexivity |].
  split; [exact Hle |]. split; [| exact Hlen].
  destruct (Nat.eqb_spec p (p + String.length mt)); lia.
Qed.

Lemma regexScan_rounds (re : rx_pattern) (pageText : string) :
  exec_contract ->
  forall fuel li ms, regexScan re pageText li fuel = Some ms ->
  exists ps lis, exec_rounds re pageText li ms ps lis
    /\ (forall k p, ps !! k = Some p -> li <= p)
    /\ (forall k p p', ps !! k = Some p -> ps !! S k = Some p' -> p < p').
Proof.
  intros Hc. induction fuel as [| fuel IH]; intros li ms; simpl; [discriminate |].
  destruct (regexStep re pageText li) as [[m li'] |] eqn:Hs.
  - destruct (regexScan re pageText li' fuel) as [ms' |] eqn:Hrec; [| discriminate].
    intros [= <-].
    destruct (regexStep_Some _ _ _ _ _ Hc Hs) as (p & Hx & Hctx & Hli' & Hle & Hlt & _).
    destruct (IH _ _ Hrec) as (ps & lis & (Hl1 & Hl2 & H0 & Hr & Hend) & Hge & Hinc).
    exists (p :: ps), (li :: lis). split; [| split].
    + split; [simpl; lia |]. split; [simpl; lia |]. split; [reflexivity |]. split.
      * intros [| k] p0 m0 l; simpl.
        -- intros [= <-] [= <-] [= <-]. split; [exact Hx |]. split; [exact Hctx |].
           rewrite H0, Hli'. reflexivity.
        -- apply Hr.
      * exact Hend.
    + intros [| k] p0; simpl; [intros [= <-]; lia |].
      intros Hk. specialize (Hge _ _ Hk). lia.
    + intros [| k] p0 p'; simpl.
      * intros [= <-] Hk. specialize (Hge _ _ Hk). lia.
      * apply Hinc.
  - intros [= <-]. exists [], [li].
    split; [| split; [intros k p Hk; by rewrite lookup_nil in Hk |
                      intros k p p' Hk; by rewrite lookup_nil in Hk]].
    split; [reflexivity |]. split; [reflexivity |]. split; [reflexivity |]. split.
    + intros k p m l Hk. by rewrite lookup_nil in Hk.
    + intros l Hl. simpl in Hl. injection Hl as <-.
      unfold regexStep in Hs.
      destruct (rx_exec re pageText li) as [[? ?] |]; [discriminate | reflexivity].
Qed.

Lemma regexScan_stops (re : rx_pattern) (pageText : string) :
  exec_contract ->
  forall fuel li, li <= S (String.length pageText) ->
  S (S (String.length pageText)) <= fuel + li ->
  exists ms, regexScan re pageText li fuel = Some ms.
Proof.
  intros Hc. induction fuel as [| fuel IH]; intros li Hli Hf; [lia |]. simpl.
  destruct (regexStep re pageText li) as [[m li'] |] eqn:Hs; [| eauto].
  destruct (regexStep_Some _ _ _ _ _ Hc Hs) as (p & _ & _ & Hli' & Hle & Hlt & Hlen).
  destruct (IH li') as [ms Hms].
  - rewrite Hli'. cbv zeta. destruct (Nat.eqb_spec p (p + String.length (m_text m))); lia.
  - lia.
  - rewrite Hms. eauto.
Qed.

End RegexProofs.

(** C5. Every round of the regex loop moves [lastIndex] strictly forward:
    after a match at [p] it is the end of the match, or, for a zero-width
    match (end = [p]), that end plus exactly one; so the per-page loop
    stops for every compiled pattern and every page text. *)
Theorem regexScan_terminates {E : RegExpEngine} :
  exec_contract ->
  (forall re pageText li m li', regexStep re pageText li = Some (m, li') ->
     li < li'
     /\ exists p, rx_exec re pageText li = Some (p, m_text m)
        /\ (String.length (m_text m) = 0 -> li' = p + String.length (m_text m) + 1)
        /\ (0 < String.length (m_text m) -> li' = p + String.length (m_text m)))
  /\ (forall re pageText, exists ms, regexSearchPage re pageText = Some ms).
Proof.
  intros Hc. split.
  - intros re pageText li m li' Hs.
    destruct (regexStep_Some _ _ _ _ _ Hc Hs) as (p & Hx & _ & Hli' & Hle & Hlt & _).
    split; [lia |]. exists p. split; [exact Hx |].
    rewrite Hli'. cbv zeta.
    destruct (Nat.eqb_spec p (p + String.length (m_text m))); split; lia.
  - intros re pageText. unfold regexSearchPage. apply regexScan_stops; [exact Hc | lia | lia].
Qed.

Lemma regexScan_terminates_witness :
  (0 < 1
   /\ exists p, MiniRegExp.exec o_star "Hello World" 0 = Some (p, "")
      /\ (String.length "" = 0 -> 1 = p + String.length "" + 1)
      /\ (0 < String.length "" -> 1 = p + String.length ""))
  /\ exists ms, @regexSearchPage MiniRegExp.engine o_star "Hello World" = Some ms.
Proof.
  destruct (regexScan_terminates (E := MiniRegExp.engine) MiniRegExp_exec_contract)
    as [Hstep Hstop].
  split.
  - exact (Hstep o_star "Hello World" 0 (mkSearchMatch "" "Hello World") 1
             ltac:(vm_compute; reflexivity)).
  - exact (Hstop o_star "Hello World").
Defined.

Lemma searchPages_total (f : string -> option (list SearchMatch)) :
  (forall pageText, exists ms, f pageText = Some ms) ->
  forall pgs index, exists rs, searchPages f index pgs = Some rs.
Proof.
  intros Hf. induction pgs as [| t pgs IH]; intros index; simpl; [eauto |].
  destruct (Hf t) as [ms ->]. destruct (IH (index + 1)%Z) as [rs ->]. eauto.
Qed.

Example o_star_compiled : MiniRegExp.newRegExp "o*" "gi" = MiniRegExp.POk o_star.
Proof. vm_compute. reflexivity. Qed.

(** C4. Regex search compiles [query] with the flags ["g"] or ["gi"]
    ([caseSensitive] false). When the constructor throws, the search
    fails with [InvalidRegex query] whatever the pages hold. Otherwise it
    returns, for each page with at least one match and in page order, the
    matches of the global [exec] loop from [lastIndex = 0], at strictly
    increasing positions. Concretely, with the fragment engine, ["["]
    fails and ["Hello|World"] on "Hello World" gives "Hello" then
    "World". *)
Theorem regexSearch_spec {E : RegExpEngine} :
  exec_contract ->
  (forall caseSensitive, regexFlags caseSensitive = if caseSensitive then "g" else "gi")
  /\ (forall loadedPDFs pdfId pdf query caseSensitive,
        loadedPDFs !! pdfId = Some pdf ->
        rx_compile query (regexFlags caseSensitive) = None ->
        searchPDF loadedPDFs pdfId query caseSensitive true = Some (Err (InvalidRegex query)))
  /\ (forall loadedPDFs pdfId pdf query caseSensitive re,
        loadedPDFs !! pdfId = Some pdf ->
        rx_compile query (regexFlags caseSensitive) = Some re ->
        exists rs, searchPDF loadedPDFs pdfId query caseSensitive true = Some (Ok rs)
          /\ (forall k r, rs !! k = Some r ->
                exists i pageText, pages pdf !! i = Some pageText
                  /\ sr_page r = (Z.of_nat i + 1)%Z
                  /\ sr_matches r <> []
                  /\ exists ps lis, exec_rounds re pageText 0 (sr_matches r) ps lis
                       /\ (forall j p p', ps !! j = Some p -> ps !! S j = Some p' -> p < p'))
          /\ (forall k1 k2 r1 r2, k1 < k2 -> rs !! k1 = Some r1 -> rs !! k2 = Some r2 ->
                (sr_page r1 < sr_page r2)%Z)
          /\ (forall i pageText ms, pages pdf !! i = Some pageText ->
                regexSearchPage re pageText = Some ms -> ms <> [] ->
                exists k r, rs !! k = Some r /\ sr_page r = (Z.of_nat i + 1)%Z
                  /\ sr_matches r = ms))
  /\ (forall caseSensitive,
        @searchPDF MiniRegExp.engine hello_registry "h" "[" caseSensitive true
        = Some (Err (InvalidRegex "[")))
  /\ (forall caseSensitive,
        @searchPDF MiniRegExp.engine hello_registry "h" "Hello|World" caseSensitive true
        = Some (Ok [mkSearchResult 1 [mkSearchMatch "Hello" "Hello World";
                                      mkSearchMatch "World" "Hello World"]])).
Proof.
  intros Hc. split; [reflexivity |]. split; [| split; [| split]].
  - intros loadedPDFs pdfId pdf query cs Hl Hx. unfold searchPDF. rewrite Hl, Hx. reflexivity.
  - intros loadedPDFs pdfId pdf query cs re Hl Hx.
    destruct (searchPages_total (regexSearchPage re)
                (proj2 (regexScan_terminates Hc) re) (pages pdf) 0) as [rs Hrs].
    exists rs. unfold searchPDF. rewrite Hl, Hx, Hrs. split; [reflexivity |].
    destruct (searchPages_spec _ _ _ _ Hrs) as (Hin & Hord & Hall).
    split; [| split].
    + intros k r Hk. destruct (Hin _ _ Hk) as (i & pageText & Hi & Hp & Hf & Hne).
      exists i, pageText. split; [exact Hi |]. split; [lia |]. split; [exact Hne |].
      destruct (regexScan_rounds re pageText Hc _ _ _ Hf) as (ps & lis & Hr & _ & Hinc).
      eauto.
    + exact Hord.
    + intros i pageText ms Hi Hf Hne.
      destruct (Hall _ _ _ Hi Hf Hne) as (k & r & Hk & Hp & Hm).
      exists k, r. split; [exact Hk |]. split; [lia | exact Hm].
  - intros []; vm_compute; reflexivity.
  - intros []; vm_compute; reflexivity.
Qed.

Lemma regexSearch_spec_witness :
  @searchPDF MiniRegExp.engine hello_registry "h" "[" false true = Some (Err (InvalidRegex "["))
  /\ exists rs, @searchPDF MiniRegExp.engine hello_registry "h" "Hello|World" false true
                = Some (Ok rs).
Proof.
  destruct (regexSearch_spec (E := MiniRegExp.engine) MiniRegExp_exec_contract)
    as (_ & Hbad & Hgood & _).
  split.
  - exact (Hbad hello_registry "h" hello_pdf "[" false
             ltac:(vm_compute; reflexivity) ltac:(vm_compute; reflexivity)).
  - destruct (Hgood hello_registry "h" hello_pdf "Hello|World" false
                (MiniRegExp.mkCompiled
                   (MiniRegExp.RAlt
                      (MiniRegExp.RSeq (MiniRegExp.RChar "H") (MiniRegExp.RSeq (MiniRegExp.RChar "e")
                        (MiniRegExp.RSeq (MiniRegExp.RChar "l") (MiniRegExp.RSeq (MiniRegExp.RChar "l")
                          (MiniRegExp.RSeq (MiniRegExp.RChar "o") MiniRegExp.REmpty)))))
                      (MiniRegExp.RSeq (MiniRegExp.RChar "W") (MiniRegExp.RSeq (MiniRegExp.RChar "o")
                        (MiniRegExp.RSeq (MiniRegExp.RChar "r") (MiniRegExp.RSeq (MiniRegExp.RChar "l")
                          (MiniRegExp.RSeq (MiniRegExp.RChar "d") MiniRegExp.REmpty))))))
                   true)
                ltac:(vm_compute; reflexivity) ltac:(vm_compute; reflexivity))
      as (rs & Hrs & _).
    exists rs. exact Hrs.
Defined.

(* ------------------------------------------------------------------ *)
(** ** Rendering and image extraction *)

Lemma js_round_comp (x y : Q) : (x == y)%Q -> js_round x = js_round y.
Proof.
  intros Hxy. unfold js_round. apply Qfloor_comp. rewrite Hxy. reflexivity.
Qed.

Ltac qz_norm H :=
  rewrite ?inject_Z_plus, ?inject_Z_mult in H;
  change (inject_Z 2) with (2 # 1)%Q in H; change (inject_Z 1) with (1 # 1)%Q in H.

Lemma js_round_double (x : Q) : (Z.abs (js_round (2 * x) - 2 * js_round x) <= 1)%Z.
Proof.
  unfold js_round.
  set (a := Qfloor (x + (1 # 2))). set (b := Qfloor (2 * x + (1 # 2))).
  assert (Ha1 : (inject_Z a <= x + (1 # 2))%Q) by apply Qfloor_le.
  assert (Ha2 : (x + (1 # 2) < inject_Z a + 1)%Q).
  { pose proof (Qlt_floor (x + (1 # 2))) as H. fold a in H.
    rewrite inject_Z_plus in H. exact H. }
  assert (Hb1 : (inject_Z b <= 2 * x + (1 # 2))%Q) by apply Qfloor_le.
  assert (Hb2 : (2 * x + (1 # 2) < inject_Z b + 1)%Q).
  { pose proof (Qlt_floor (2 * x + (1 # 2))) as H. fold b in H.
    rewrite inject_Z_plus in H. exact H. }
  assert (Hup : (b <= 2 * a + 1)%Z).
  { apply Z.nlt_ge. intros Hlt. apply Zlt_le_succ in Hlt.
    unfold Z.succ in Hlt. rewrite Zle_Qle in Hlt. qz_norm Hlt. lra. }
  assert (Hlo : (2 * a <= b + 1)%Z).
  { apply Z.nlt_ge. intros Hlt. apply Zlt_le_succ in Hlt.
    unfold Z.succ in Hlt. rewrite Zle_Qle in Hlt. qz_norm Hlt. lra. }
  lia.
Qed.

Lemma renderPage_Ok loadedPDFs doc pdfId pageNumber dpi format rp :
  renderPage loadedPDFs doc pdfId pageNumber dpi format = Ok rp ->
  exists page, idoc_getPage doc pageNumber = Some page
    /\ rp_width rp = js_round (fst (ip_view page) * (dpi / 72))
    /\ rp_height rp = js_round (snd (ip_view page) * (dpi / 72)).
Proof.
  unfold renderPage.
  destruct (loadedPDFs !! pdfId) as [pdf |]; [| discriminate].
  destruct (_ || _); [discriminate |].
  destruct (idoc_getPage doc pageNumber) as [page |]; [| discriminate].
  destruct (ip_paint page _ _); [| discriminate].
  intros [= <-]. exists page. auto.
Qed.

(** C6. [renderPage] reports as width and height the page's view-box
    dimensions times [scale = dpi / 72], rounded with [Math.round]; so
    rendering the same page at [d] and at [2 d] gives a width and a
    height at [2 d] within one pixel of twice those at [d]. *)
Theorem renderPage_scaling :
  (forall loadedPDFs doc pdfId pageNumber dpi format rp,
     renderPage loadedPDFs doc pdfId pageNumber dpi format = Ok rp ->
     exists page, idoc_getPage doc pageNumber = Some page
       /\ rp_width rp = js_round (fst (ip_view page) * (dpi / 72))
       /\ rp_height rp = js_round (snd (ip_view page) * (dpi / 72)))
  /\ (forall loadedPDFs doc pdfId pageNumber d format1 format2 rp1 rp2,
     renderPage loadedPDFs doc pdfId pageNumber d format1 = Ok rp1 ->
     renderPage loadedPDFs doc pdfId pageNumber (2 * d) format2 = Ok rp2 ->
     (Z.abs (rp_width rp2 - 2 * rp_width rp1) <= 1
      /\ Z.abs (rp_height rp2 - 2 * rp_height rp1) <= 1)%Z).
Proof.
  split; [exact renderPage_Ok |].
  intros loadedPDFs doc pdfId pageNumber d f1 f2 rp1 rp2 H1 H2.
  destruct (renderPage_Ok _ _ _ _ _ _ _ H1) as (page & Hp & Hw1 & Hh1).
  destruct (renderPage_Ok _ _ _ _ _ _ _ H2) as (page' & Hp' & Hw2 & Hh2).
  rewrite Hp in Hp'. injection Hp' as <-.
  rewrite Hw1, Hh1, Hw2, Hh2.
  rewrite (js_round_comp (fst (ip_view page) * (2 * d / 72)) (2 * (fst (ip_view page) * (d / 72))))
    by (field; discriminate).
  rewrite (js_round_comp (snd (ip_view page) * (2 * d / 72)) (2 * (snd (ip_view page) * (d / 72))))
    by (field; discriminate).
  split; apply js_round_double.
Qed.

Lemma renderPage_scaling_witness :
  renderPage sample_registry letter_doc "k" 1 96 "png" = Ok (mkRenderedPage 1 816 1056 "png" [] 96)
  /\ renderPage sample_registry letter_doc "k" 1 (2 * 96) "png"
     = Ok (mkRenderedPage 1 1632 2112 "png" [] (2 * 96))
  /\ (Z.abs (1632 - 2 * 816) <= 1 /\ Z.abs (2112 - 2 * 1056) <= 1)%Z.
Proof.
  assert (H1 : renderPage sample_registry letter_doc "k" 1 96 "png"
               = Ok (mkRenderedPage 1 816 1056 "png" [] 96)) by (vm_compute; reflexivity).
  assert (H2 : renderPage sample_registry letter_doc "k" 1 (2 * 96) "png"
               = Ok (mkRenderedPage 1 1632 2112 "png" [] (2 * 96))) by (vm_compute; reflexivity).
  split; [exact H1 |]. split; [exact H2 |].
  exact (proj2 renderPage_scaling sample_registry letter_doc "k" 1%Z 96%Q "png" "png" _ _ H1 H2).
Defined.

Lemma extractImages_single_page loadedPDFs doc pdfId pdf pageNum page dpi :
  loadedPDFs !! pdfId = Some pdf ->
  (1 <= pageNum <= Z.of_nat (idoc_numPages doc))%Z ->
  idoc_getPage doc pageNum = Some page ->
  extractImages loadedPDFs doc pdfId (Some [pageNum]) dpi
  = match extractImagesFromPage page pageNum dpi with
    | Ok imgs => Ok (map toExtracted imgs)
    | Err e => Err e
    end.
Proof.
  intros Hl Hr Hp. unfold extractImages. rewrite Hl. simpl.
  destruct (Z.ltb_spec pageNum 1); [lia |].
  destruct (Z.ltb_spec (Z.of_nat (idoc_numPages doc)) pageNum); [lia |]. simpl.
  rewrite Hp. destruct (extractImagesFromPage page pageNum dpi); [| reflexivity].
  by rewrite app_nil_r.
Qed.

(** C7 (as the code has it). For a page with no embedded image (the
    operator-list scan yields none), [extractImages] on that page with a
    [dpi] of at most 0 returns nothing; with a positive [dpi] it returns
    the whole page rasterized at [dpi / 72] with index 0, when painting
    the page succeeds, and nothing when painting throws (the error is
    caught and only logged). *)
Theorem extractImages_page_fallback :
  forall loadedPDFs doc pdfId pdf pageNum page ops dpi,
    loadedPDFs !! pdfId = Some pdf ->
    (1 <= pageNum <= Z.of_nat (idoc_numPages doc))%Z ->
    idoc_getPage doc pageNum = Some page ->
    ip_ops page = Some ops ->
    scanOps page pageNum 0 ops = [] ->
    ((dpi <= 0)%Q -> extractImages loadedPDFs doc pdfId (Some [pageNum]) dpi = Ok [])
    /\ ((0 < dpi)%Q ->
        (forall png, ip_paint page (dpi / 72) "image/png" = Some png ->
           extractImages loadedPDFs doc pdfId (Some [pageNum]) dpi
           = Ok [mkExtractedImage pageNum 0
                   (js_round (fst (ip_view page) * (dpi / 72)))
                   (js_round (snd (ip_view page) * (dpi / 72)))
                   "png" (PagePNG png)])
        /\ (ip_paint page (dpi / 72) "image/png" = None ->
           extractImages loadedPDFs doc pdfId (Some [pageNum]) dpi = Ok [])).
Proof.
  intros loadedPDFs doc pdfId pdf pageNum page ops dpi Hl Hr Hp Hops Hscan.
  rewrite (extractImages_single_page _ _ _ _ _ _ _ Hl Hr Hp).
  unfold extractImagesFromPage. rewrite Hops, Hscan.
  split.
  - intros Hle. destruct (Qlt_le_dec 0 dpi) as [Hlt |]; [| reflexivity].
    exfalso. apply (Qlt_not_le _ _ Hlt Hle).
  - intros Hlt. destruct (Qlt_le_dec 0 dpi) as [_ | Hle];
      [| exfalso; apply (Qlt_not_le _ _ Hlt Hle)].
    split.
    + intros png Hpng. rewrite Hpng. reflexivity.
    + intros Hnone. rewrite Hnone. reflexivity.
Qed.

Lemma extractImages_page_fallback_witness :
  extractImages sample_registry letter_doc "k" (Some [1%Z]) 0 = Ok []
  /\ extractImages sample_registry letter_doc "k" (Some [1%Z]) 96
     = Ok [mkExtractedImage 1 0 816 1056 "png" (PagePNG [])]
  /\ extractImages sample_registry unpaintable_doc "k" (Some [1%Z]) 96 = Ok [].
Proof.
  split; [| split].
  - apply (proj1 (extractImages_page_fallback sample_registry letter_doc "k" sample_pdf 1%Z
                    letter_page [] 0 eq_refl ltac:(simpl; lia) eq_refl eq_refl eq_refl)).
    discriminate.
  - exact (proj1 (proj2 (extractImages_page_fallback sample_registry letter_doc "k" sample_pdf 1%Z
                    letter_page [] 96 eq_refl ltac:(simpl; lia) eq_refl eq_refl eq_refl)
                    ltac:(reflexivity)) [] eq_refl).
  - exact (proj2 (proj2 (extractImages_page_fallback sample_registry unpaintable_doc "k" sample_pdf 1%Z
                    unpaintable_page [] 96 eq_refl ltac:(simpl; lia) eq_refl eq_refl eq_refl)
                    ltac:(reflexivity)) eq_refl).
Defined.

(** C7, as stated, does not hold: a page without embedded images whose
    painting throws gives no image at [dpi = 96]. *)
Lemma extractImages_unpaintable_page_gives_nothing :
  extractImages sample_registry unpaintable_doc "k" (Some [1%Z]) 96 = Ok []
  /\ scanOps unpaintable_page 1 0 [] = []
  /\ extractImages sample_registry unpaintable_doc "k" (Some [1%Z]) 0 = Ok [].
Proof. vm_compute. auto. Qed.

(* ================================================================== *)
(** * Further properties of the processor and the server *)

(* ------------------------------------------------------------------ *)
(** ** Strings *)

Lemma str_app_assoc (a b c : string) : (a +:+ b) +:+ c = a +:+ (b +:+ c).
Proof. induction a as [| x a IH]; simpl; [reflexivity | exact (f_equal _ IH)]. Qed.

Lemma str_app_nil_r (a : string) : a +:+ "" = a.
Proof. induction a as [| x a IH]; simpl; [reflexivity | exact (f_equal _ IH)]. Qed.

Lemma length_str_app (a b : string) :
  String.length (a +:+ b) = String.length a + String.length b.
Proof. induction a as [| x a IH]; simpl; [reflexivity | exact (f_equal _ IH)]. Qed.

Lemma length_rev_app (a b : string) :
  String.length (String.rev_app a b) = String.length a + String.length b.
Proof.
  revert b. induction a as [| x a IH]; intros b; simpl; [reflexivity |].
  rewrite IH. simpl. lia.
Qed.

Lemma length_trimStart (s : string) : String.length (trimStart s) <= String.length s.
Proof.
  induction s as [| c s IH]; simpl; [lia |]. destruct (is_js_space c); simpl; lia.
Qed.

Lemma length_trim (s : string) : String.length (trim s) <= String.length s.
Proof.
  unfold trim, String.rev. rewrite length_rev_app. simpl.
  pose proof (length_trimStart (String.rev_app (trimStart s) "")) as H1.
  rewrite length_rev_app in H1. simpl in H1.
  pose proof (length_trimStart s). lia.
Qed.

Lemma length_contextOf (pageText : string) (position len : nat) :
  position <= String.length pageText ->
  String.length (contextOf pageText position len) <= len + 100.
Proof.
  intros Hp. unfold contextOf.
  etrans; [apply length_trim |].
  rewrite length_substring by lia. lia.
Qed.

Lemma toLowerCase_substring (s : string) :
  forall n m, toLowerCase (String.substring n m s) = String.substring n m (toLowerCase s).
Proof.
  induction s as [| c s IH]; intros [| n] [| m]; simpl; try reflexivity.
  - f_equal. apply IH.
  - apply IH.
  - apply IH.
Qed.

Lemma substring_at (s : string) (p n : nat) :
  p + n <= String.length s -> substring s p (p + n) = String.substring p n s.
Proof.
  intros H. unfold substring.
  rewrite Nat.min_l by lia. rewrite Nat.min_l by lia.
  rewrite Nat.max_r by lia. rewrite Nat.min_l by lia.
  by replace (p + n - p) with n by lia.
Qed.

Lemma occursAt_spec (s q : string) (p : nat) :
  occursAt s q p = true ->
  p + String.length q <= String.length s /\ String.substring p (String.length q) s = q.
Proof.
  unfold occursAt. rewrite andb_true_iff, Nat.leb_le, String.eqb_eq. tauto.
Qed.

Lemma join_app (sep : string) (l1 l2 : list string) :
  l1 <> [] -> l2 <> [] -> join sep (l1 ++ l2) = join sep l1 +:+ sep +:+ join sep l2.
Proof.
  intros H1 H2. induction l1 as [| x l1 IH]; [congruence |].
  destruct l1 as [| y l1].
  - simpl. destruct l2; [congruence | reflexivity].
  - change ((x :: y :: l1) ++ l2) with (x :: (y :: l1) ++ l2).
    change (join sep (x :: (y :: l1) ++ l2)) with (x +:+ sep +:+ join sep ((y :: l1) ++ l2)).
    rewrite IH by discriminate.
    change (join sep (x :: y :: l1)) with (x +:+ sep +:+ join sep (y :: l1)).
    rewrite !str_app_assoc. reflexivity.
Qed.

Lemma length_Z_range (a b : Z) : length (Z_range a b) = Z.to_nat (b - a + 1).
Proof. unfold Z_range. by rewrite length_map, length_seq. Qed.

Lemma Z_range_app (a b c : Z) :
  (a <= b < c)%Z -> Z_range a c = Z_range a b ++ Z_range (b + 1) c.
Proof.
  intros H. apply list_eq. intros i.
  destruct (Nat.lt_ge_cases i (length (Z_range a c))) as [Hi | Hi].
  - rewrite Z_range_lookup by exact Hi. rewrite length_Z_range in Hi.
    destruct (Nat.lt_ge_cases i (length (Z_range a b))) as [Hj | Hj].
    + rewrite lookup_app_l by exact Hj. rewrite Z_range_lookup by exact Hj. reflexivity.
    + rewrite lookup_app_r by exact Hj. rewrite length_Z_range in Hj |- *.
      rewrite Z_range_lookup by (rewrite length_Z_range; lia). f_equal. lia.
  - rewrite (proj2 (lookup_ge_None _ _) Hi). symmetry. apply lookup_ge_None.
    rewrite length_app, !length_Z_range. rewrite length_Z_range in Hi. lia.
Qed.

(* ------------------------------------------------------------------ *)
(** ** Page texts and search *)

(** X1. The blocks of [extractRange] compose: the range [a..b], ["\n\n"] and
    the range [b+1..c] make the range [a..c]; the range [n..n] is the
    marker line of page [n] followed by what [extractPage] gives for it. *)
Theorem extractRange_compose (loadedPDFs : Registry) (pdfId : string) :
  (forall a b c sa sb,
     extractRange loadedPDFs pdfId a b = Ok sa ->
     extractRange loadedPDFs pdfId (b + 1) c = Ok sb ->
     extractRange loadedPDFs pdfId a c = Ok (sa +:+ nl +:+ nl +:+ sb))
  /\ (forall n text, extractPage loadedPDFs pdfId n = Ok text ->
        extractRange loadedPDFs pdfId n n = Ok (page_marker n +:+ nl +:+ text)).
Proof.
  unfold extractRange, extractPage.
  destruct (loadedPDFs !! pdfId) as [pdf |]; [| split; intros; discriminate].
  split.
  - intros a b c sa sb Hab Hbc.
    destruct (Z.ltb_spec a 1); [discriminate |].
    destruct (Z.ltb_spec (pageCount pdf) b); [discriminate |].
    destruct (Z.ltb_spec b a); [discriminate |]. simpl in Hab. injection Hab as <-.
    destruct (Z.ltb_spec (b + 1) 1); [discriminate |].
    destruct (Z.ltb_spec (pageCount pdf) c); [discriminate |].
    destruct (Z.ltb_spec c (b + 1)); [discriminate |]. simpl in Hbc. injection Hbc as <-.
    destruct (Z.ltb_spec a 1); [lia |].
    destruct (Z.ltb_spec (pageCount pdf) c); [lia |].
    destruct (Z.ltb_spec c a); [lia |]. simpl.
    rewrite (Z_range_app a b c) by lia. rewrite map_app, join_app.
    + by rewrite str_app_assoc.
    + intros Hn. apply (f_equal length) in Hn.
      rewrite length_map, length_Z_range in Hn. simpl in Hn. lia.
    + intros Hn. apply (f_equal length) in Hn.
      rewrite length_map, length_Z_range in Hn. simpl in Hn. lia.
  - intros n text Hn.
    destruct (Z.ltb_spec n 1); [discriminate |].
    destruct (Z.ltb_spec (pageCount pdf) n); [discriminate |]. simpl in Hn.
    injection Hn as <-. simpl.
    destruct (Z.ltb_spec n n); [lia |].
    unfold Z_range. replace (Z.to_nat (n - n + 1)) with 1 by lia. simpl.
    unfold range_block. by rewrite Z.add_0_r.
Qed.

Lemma extractRange_compose_witness :
  extractRange sample_registry "k" 1 3
  = Ok ("--- Page 1 ---" +:+ nl +:+ "first" +:+ nl +:+ nl +:+ "--- Page 2 ---" +:+ nl
        +:+ nl +:+ nl +:+ "--- Page 3 ---" +:+ nl +:+ "third")
  /\ extractRange sample_registry "k" 3 3 = Ok (page_marker 3 +:+ nl +:+ "third").
Proof.
  destruct (extractRange_compose sample_registry "k") as [Hc Hs]. split.
  - exact (Hc 1%Z 2%Z 3%Z _ _ ltac:(vm_compute; reflexivity) ltac:(vm_compute; reflexivity)).
  - exact (Hs 3%Z "third" ltac:(vm_compute; reflexivity)).
Defined.

(** X2. Every match of the plain search has the query's length and equals it
    up to case as [toLowerCase] folds it (Latin-1), and exactly when [caseSensitive] is set; its context
    is at most 100 characters longer than the query. *)
Theorem plainSearchPage_matches (caseSensitive : bool) (query pageText : string)
    (ms : list SearchMatch) :
  plainSearchPage caseSensitive query pageText = Some ms ->
  forall m, In m ms ->
    String.length (m_text m) = String.length query
    /\ toLowerCase (m_text m) = toLowerCase query
    /\ (caseSensitive = true -> m_text m = query)
    /\ String.length (m_context m) <= String.length query + 100.
Proof.
  unfold plainSearchPage. intros Hs m Hm.
  destruct (plainScan_positions _ _ _ _ _ _ _ Hs) as (ps & Hlen & Hps & _ & Hms & _).
  apply list_elem_of_In, list_elem_of_lookup in Hm as [k Hk].
  destruct (lookup_lt_is_Some_2 ps k) as [p Hp].
  { rewrite Hlen. by apply lookup_lt_Some in Hk. }
  destruct (Hps _ _ Hp) as [_ Hocc]. rewrite (Hms _ _ _ Hp Hk). simpl.
  destruct caseSensitive.
  - apply occursAt_spec in Hocc as [Hb Heq].
    rewrite substring_at by exact Hb. rewrite Heq.
    split; [reflexivity |]. split; [reflexivity |]. split; [reflexivity |].
    apply length_contextOf. lia.
  - apply occursAt_spec in Hocc as [Hb Heq].
    rewrite !length_toLowerCase in Hb. rewrite length_toLowerCase in Heq.
    rewrite substring_at by exact Hb.
    split; [apply length_String_substring; lia |].
    split; [by rewrite toLowerCase_substring |].
    split; [discriminate |].
    rewrite length_toLowerCase. apply length_contextOf. lia.
Qed.

Lemma plainSearchPage_matches_witness :
  In (mkSearchMatch "Hello" "Hello World") [mkSearchMatch "Hello" "Hello World"]
  /\ String.length "Hello" = String.length "hello"
  /\ toLowerCase "Hello" = toLowerCase "hello"
  /\ (false = true -> "Hello" = "hello")
  /\ String.length "Hello World" <= String.length "hello" + 100.
Proof.
  split; [left; reflexivity |].
  exact (plainSearchPage_matches false "hello" "Hello World" [mkSearchMatch "Hello" "Hello World"]
           ltac:(vm_compute; reflexivity) _ (or_introl eq_refl)).
Defined.

(** X3. A plain search for the empty string does not return once the
    document has a page: the loop finds [""] again at the same position
    for ever, whatever the number of rounds allowed. *)
Theorem plainSearch_empty_query_diverges {E : RegExpEngine} (loadedPDFs : Registry)
    (pdfId : string) (pdf : LoadedPDF) (caseSensitive : bool) :
  loadedPDFs !! pdfId = Some pdf -> pages pdf <> [] ->
  searchPDF loadedPDFs pdfId "" caseSensitive false = None
  /\ forall pageText fuel,
       plainScan pageText (if caseSensitive then pageText else toLowerCase pageText) "" "" 0 fuel
       = None.
Proof.
  intros Hl Hne.
  assert (Hall : forall pageText fuel,
    plainScan pageText (if caseSensitive then pageText else toLowerCase pageText) "" "" 0 fuel
    = None).
  { intros pageText fuel. apply plainScan_empty_query_runs_forever. lia. }
  split; [| exact Hall].
  unfold searchPDF. rewrite Hl.
  destruct (pages pdf) as [| t rest]; [congruence |].
  assert (Ht : plainSearchPage caseSensitive "" t = None).
  { unfold plainSearchPage.
    replace (if caseSensitive then "" else toLowerCase "") with "" by (destruct caseSensitive; reflexivity).
    apply Hall. }
  cbn [searchPages]. rewrite Ht. reflexivity.
Qed.

Lemma plainSearch_empty_query_diverges_witness :
  @searchPDF MiniRegExp.engine hello_registry "h" "" false false = None.
Proof.
  exact (proj1 (plainSearch_empty_query_diverges (E := MiniRegExp.engine) hello_registry "h"
                  hello_pdf false eq_refl ltac:(discriminate))).
Defined.

(* ------------------------------------------------------------------ *)
(** ** Outline *)

Lemma cat_app (l1 l2 : list string) : cat (l1 ++ l2) = cat l1 +:+ cat l2.
Proof.
  induction l1 as [| x l1 IH]; simpl; [reflexivity |].
  unfold cat in *. simpl. rewrite IH. by rewrite str_app_assoc.
Qed.

Lemma spaces_comm (d : nat) : spaces d +:+ "  " = "  " +:+ spaces d.
Proof.
  induction d as [| d IH]; [reflexivity |].
  change (spaces (S d)) with ("  " +:+ spaces d).
  rewrite str_app_assoc, IH. reflexivity.
Qed.

Lemma formatItem_eq (indent acc title : string) (page : option Z) (level : Z)
    (children : option (list OutlineItem)) :
  formatItem indent acc (mkOutlineItem title page level children)
  = (acc +:+ (indent +:+ title +:+ pageInfo page +:+ nl))
    +:+ match children with
        | Some cs => fold_left (formatItem (indent +:+ "  ")) cs ""
        | None => ""
        end.
Proof.
  destruct children as [[| c cs] |]; simpl; try by rewrite str_app_nil_r.
  f_equal. remember (indent +:+ "  ") as ind eqn:Hind. clear Hind.
  generalize (formatItem ind "" c) as r.
  induction cs as [| x l IH]; intros r; simpl; [reflexivity | apply IH].
Qed.

Lemma outline_entries_eq (d : nat) (title : string) (page : option Z) (level : Z)
    (children : option (list OutlineItem)) :
  outline_entries d (mkOutlineItem title page level children)
  = (d, mkOutlineItem title page level children)
    :: match children with
       | Some cs => concat (map (outline_entries (S d)) cs)
       | None => []
       end.
Proof.
  destruct children as [cs |]; simpl; [| reflexivity].
  f_equal. induction cs as [| c cs IH]; simpl; [reflexivity |]. by rewrite IH.
Qed.

Lemma raw_entries_eq (d : nat) (title : string) (dest : option RawDest)
    (items : list RawOutlineItem) :
  raw_entries d (RawItem title dest items)
  = (d, RawItem title dest items) :: concat (map (raw_entries (S d)) items).
Proof.
  simpl. f_equal. induction items as [| c cs IH]; simpl; [reflexivity |]. by rewrite IH.
Qed.

Lemma formatItem_lines (item : OutlineItem) :
  forall indent d acc,
    formatItem (indent +:+ spaces d) acc item
    = acc +:+ cat (map (outline_line indent) (outline_entries d item)).
Proof.
  induction item as [title page level children Hch] using outline_item_ind.
  intros indent d acc.
  rewrite formatItem_eq, outline_entries_eq. simpl map.
  change (cat (?x :: ?l)) with (x +:+ cat l).
  unfold outline_line at 1. simpl fst. simpl snd.
  assert (Hline : (indent +:+ spaces d) +:+ title +:+ pageInfo page +:+ nl
                  = indent +:+ spaces d +:+ title +:+ pageInfo page +:+ nl)
    by apply str_app_assoc.
  rewrite Hline. rewrite (str_app_assoc acc). f_equal. f_equal.
  destruct children as [cs |]; [| reflexivity].
  rewrite str_app_assoc, spaces_comm. change ("  " +:+ spaces d) with (spaces (S d)).
  clear Hline.
  enough (Hr : forall r, fold_left (formatItem (indent +:+ spaces (S d))) cs r
                 = r +:+ cat (map (outline_line indent) (concat (map (outline_entries (S d)) cs))))
    by exact (Hr "").
  induction Hch as [| c cs Hc Hcs IH]; intros r; cbn [fold_left concat map];
    [by rewrite str_app_nil_r |].
  rewrite IH, Hc, map_app, cat_app. apply str_app_assoc.
Qed.

Lemma formatOutline_lines_from (indent : string) (items : list OutlineItem) :
  forall r, fold_left (formatItem indent) items r
            = r +:+ cat (map (outline_line indent) (concat (map (outline_entries 0) items))).
Proof.
  induction items as [| c cs IH]; intros r; cbn [fold_left concat map];
    [by rewrite str_app_nil_r |].
  rewrite IH. rewrite <- (str_app_nil_r indent) at 1.
  change "" with (spaces 0) at 1. rewrite formatItem_lines.
  rewrite map_app, cat_app. apply str_app_assoc.
Qed.

(** X4. [formatOutlineAsText(items, indent)] writes one line per outline entry,
    in pre-order (an entry, then its children, then its next sibling):
    the indent, two spaces per nesting level, the title, [" (Page n)"] for
    a non-zero page, and a newline. *)
Theorem formatOutlineAsText_lines (items : list OutlineItem) (indent : string) :
  formatOutlineAsText items indent
  = cat (map (outline_line indent) (concat (map (outline_entries 0) items))).
Proof. unfold formatOutlineAsText. apply formatOutline_lines_from. Qed.

Lemma process_lines (doc : PDFDocument) (r : RawOutlineItem) :
  forall d level,
    map (outline_line "") (outline_entries d (processOutlineItem doc level r))
    = map (raw_line doc) (raw_entries d r).
Proof.
  induction r as [title dest items Hitems] using raw_item_ind. intros d level.
  rewrite raw_entries_eq. simpl processOutlineItem. rewrite outline_entries_eq.
  cbn [map]. f_equal.
  destruct items as [| c cs]; [reflexivity |].
  rewrite !concat_map, !map_map. f_equal.
  remember (c :: cs) as l eqn:Hl. clear Hl.
  induction Hitems as [| x l Hx _ IH]; [reflexivity |]. cbn [map]. f_equal; [apply Hx | exact IH].
Qed.

Lemma processOutline_text (doc : PDFDocument) (l : list RawOutlineItem) :
  formatOutlineAsText (processOutline doc l 0) ""
  = cat (map (raw_line doc) (concat (map (raw_entries 0) l))).
Proof.
  rewrite formatOutlineAsText_lines. unfold processOutline. f_equal.
  rewrite !concat_map, !map_map. f_equal.
  apply map_ext. intros x. apply process_lines.
Qed.

(** X5. After a successful [loadPDF], [getPDFInfo] answers the stored id, the
    location, the page count and the document's [info] for the new id,
    and the same as before for every other id. *)
Theorem loadPDF_then_getPDFInfo (md5_hex : string -> string) (env : Env) (p : string)
    (loadedPDFs reg' : Registry) (pid : string) (n : Z) :
  loadPDF md5_hex env p loadedPDFs = (Ok (pid, n), reg') ->
  exists bytes doc, readSource env p = Ok bytes /\ getDocument env bytes = Some doc
    /\ getPDFInfo reg' pid = Ok (mkPDFInfo pid p n (docMetadata doc))
    /\ forall q, q <> pid -> getPDFInfo reg' q = getPDFInfo loadedPDFs q.
Proof.
  intros Hl. destruct (loadPDF_Ok _ _ _ _ _ _ Hl) as (bytes & doc & Hr & Hd & Hres & Hreg).
  injection Hres as -> ->.
  exists bytes, doc. split; [exact Hr |]. split; [exact Hd |]. split.
  - unfold getPDFInfo. rewrite Hreg, lookup_insert_eq. reflexivity.
  - intros q Hq. unfold getPDFInfo. rewrite Hreg, lookup_insert_ne by congruence.
    reflexivity.
Qed.

Lemma loadPDF_then_getPDFInfo_witness :
  exists bytes doc, readSource outline_env "report.pdf" = Ok bytes
    /\ getDocument outline_env bytes = Some doc
    /\ getPDFInfo (snd (loadPDF sample_md5 outline_env "report.pdf" ∅)) "md5:report.pdf"
       = Ok (mkPDFInfo "md5:report.pdf" "report.pdf" 2 (docMetadata doc))
    /\ forall q, q <> "md5:report.pdf" ->
         getPDFInfo (snd (loadPDF sample_md5 outline_env "report.pdf" ∅)) q = getPDFInfo ∅ q.
Proof.
  exact (loadPDF_then_getPDFInfo sample_md5 outline_env "report.pdf" ∅ _ "md5:report.pdf" 2
           ltac:(vm_compute; reflexivity)).
Defined.

(** X6. [listLoadedPDFs] after a successful [loadPDF] lists the new record
    with its id, location and page count; it grows by one entry for a
    new id and keeps its length when the id was already loaded (a reload
    replaces the record). *)
Theorem loadPDF_then_listLoadedPDFs (md5_hex : string -> string) (env : Env) (p : string)
    (loadedPDFs reg' : Registry) (pid : string) (n : Z) :
  loadPDF md5_hex env p loadedPDFs = (Ok (pid, n), reg') ->
  In (mkPDFSummary pid p n) (listLoadedPDFs reg')
  /\ length (listLoadedPDFs reg')
     = match loadedPDFs !! pid with
       | Some _ => length (listLoadedPDFs loadedPDFs)
       | None => S (length (listLoadedPDFs loadedPDFs))
       end.
Proof.
  intros Hl. destruct (loadPDF_Ok _ _ _ _ _ _ Hl) as (bytes & doc & _ & _ & Hres & Hreg).
  injection Hres as -> ->. subst reg'. split.
  - unfold listLoadedPDFs. apply in_map_iff.
    exists (md5_hex p, mkLoadedPDF (md5_hex p) p (Z.of_nat (numPages doc)) (extractPages doc)
                        (docMetadata doc) (docOutline doc)).
    split; [reflexivity |]. apply list_elem_of_In, elem_of_map_to_list. apply lookup_insert_eq.
  - unfold listLoadedPDFs. rewrite !length_map, !length_map_to_list, map_size_insert.
    destruct (loadedPDFs !! md5_hex p); reflexivity.
Qed.

Lemma loadPDF_then_listLoadedPDFs_witness :
  In (mkPDFSummary "md5:report.pdf" "report.pdf" 2)
     (listLoadedPDFs (snd (loadPDF sample_md5 outline_env "report.pdf" sample_registry)))
  /\ length (listLoadedPDFs (snd (loadPDF sample_md5 outline_env "report.pdf" sample_registry)))
     = match sample_registry !! "md5:report.pdf" with
       | Some _ => length (listLoadedPDFs sample_registry)
       | None => S (length (listLoadedPDFs sample_registry))
       end.
Proof.
  exact (loadPDF_then_listLoadedPDFs sample_md5 outline_env "report.pdf" sample_registry _
           "md5:report.pdf" 2 ltac:(vm_compute; reflexivity)).
Defined.

(** X7. What the [extract_outline] tool shows for a document [loadPDF] has
    just stored: when [getOutline] rejected or gave no entry, the message
    "No outline/TOC found in this PDF."; otherwise one line per entry of
    the raw outline in pre-order, indented by two spaces per level, with
    [" (Page n)"] when its destination resolved to page [n]. *)
Theorem loadPDF_then_formatted_outline (md5_hex : string -> string) (env : Env) (p : string)
    (loadedPDFs reg' : Registry) (pid : string) (n : Z) :
  loadPDF md5_hex env p loadedPDFs = (Ok (pid, n), reg') ->
  exists bytes doc, readSource env p = Ok bytes /\ getDocument env bytes = Some doc
    /\ getFormattedOutline reg' pid
       = Ok (match getOutline doc with
             | Some ((_ :: _) as raws) => cat (map (raw_line doc) (concat (map (raw_entries 0) raws)))
             | _ => no_outline_text
             end).
Proof.
  intros Hl. destruct (loadPDF_Ok _ _ _ _ _ _ Hl) as (bytes & doc & Hr & Hd & Hres & Hreg).
  injection Hres as -> ->.
  exists bytes, doc. split; [exact Hr |]. split; [exact Hd |].
  unfold getFormattedOutline, extractOutline. rewrite Hreg, lookup_insert_eq.
  unfold docOutline. destruct (getOutline doc) as [[| r raws] |]; try reflexivity.
  exact (f_equal Ok (processOutline_text doc (r :: raws))).
Qed.

Lemma loadPDF_then_formatted_outline_witness :
  exists bytes doc, readSource outline_env "report.pdf" = Ok bytes
    /\ getDocument outline_env bytes = Some doc
    /\ getFormattedOutline (snd (loadPDF sample_md5 outline_env "report.pdf" ∅)) "md5:report.pdf"
       = Ok (match getOutline doc with
             | Some ((_ :: _) as raws) => cat (map (raw_line doc) (concat (map (raw_entries 0) raws)))
             | _ => no_outline_text
             end).
Proof.
  exact (loadPDF_then_formatted_outline sample_md5 outline_env "report.pdf" ∅ _
           "md5:report.pdf" 2 ltac:(vm_compute; reflexivity)).
Defined.

Lemma scanPageRefs_Some (doc : PDFDocument) (num gen : Z) :
  forall fuel i k, scanPageRefs doc num gen i fuel = Some k ->
  (i <= k < i + fuel)%nat
  /\ (exists p, getPage doc (S k) = Some p /\ page_ref p = Some (num, gen))
  /\ forall j, (i <= j < k)%nat ->
       exists q, getPage doc (S j) = Some q /\ page_ref q <> Some (num, gen).
Proof.
  induction fuel as [| fuel IH]; intros i k; simpl; [discriminate |].
  destruct (getPage doc (S i)) as [p |] eqn:Hp; [| discriminate].
  case_decide as Hr.
  - intros [= <-]. split; [lia |]. split; [eauto |]. intros j Hj; lia.
  - intros Hs. destruct (IH _ _ Hs) as (Hk & Hm & Hb). split; [lia |]. split; [exact Hm |].
    intros j Hj. destruct (decide (j = i)) as [-> | Hji]; [eauto |]. apply Hb. lia.
Qed.

Lemma scanPageRefs_None (doc : PDFDocument) (num gen : Z) :
  forall fuel i,
  (forall j, (i <= j < i + fuel)%nat ->
     exists q, getPage doc (S j) = Some q /\ page_ref q <> Some (num, gen)) ->
  scanPageRefs doc num gen i fuel = None.
Proof.
  induction fuel as [| fuel IH]; intros i Hall; simpl; [reflexivity |].
  destruct (Hall i ltac:(lia)) as (q & Hq & Hr). rewrite Hq.
  case_decide; [contradiction |]. apply IH. intros j Hj. apply Hall. lia.
Qed.

(** X8. [getPageIndex(doc, ref)] for a page reference returns the 0-based
    index [k] of the first page whose [ref] has the same [num] and [gen]:
    [k < numPages], page [k + 1] carries the reference and every earlier
    page was read and carries another one. *)
Theorem getPageIndex_first_match (doc : PDFDocument) (num gen : Z) (k : nat) :
  getPageIndex doc (DestRef num gen) = Some k ->
  (k < numPages doc)%nat
  /\ (exists p, getPage doc (S k) = Some p /\ page_ref p = Some (num, gen))
  /\ forall j, (j < k)%nat ->
       exists q, getPage doc (S j) = Some q /\ page_ref q <> Some (num, gen).
Proof.
  simpl. intros Hs. destruct (scanPageRefs_Some _ _ _ _ _ _ Hs) as (Hk & Hm & Hb).
  split; [lia |]. split; [exact Hm |]. intros j Hj. apply Hb. lia.
Qed.

Lemma getPageIndex_first_match_witness :
  (1 < numPages outline_doc)%nat
  /\ (exists p, getPage outline_doc 2 = Some p /\ page_ref p = Some (9%Z, 0%Z))
  /\ forall j, (j < 1)%nat ->
       exists q, getPage outline_doc (S j) = Some q /\ page_ref q <> Some (9%Z, 0%Z).
Proof.
  exact (getPageIndex_first_match outline_doc 9 0 1 ltac:(vm_compute; reflexivity)).
Defined.

(** X9. When every page [1..numPages] is read and none carries the reference,
    [getPageIndex] returns [null]. *)
Theorem getPageIndex_no_match (doc : PDFDocument) (num gen : Z) :
  (forall j, (j < numPages doc)%nat ->
     exists q, getPage doc (S j) = Some q /\ page_ref q <> Some (num, gen)) ->
  getPageIndex doc (DestRef num gen) = None.
Proof. intros Hall. apply scanPageRefs_None. intros j Hj. apply Hall. lia. Qed.

Lemma getPageIndex_no_match_witness :
  getPageIndex outline_doc (DestRef 7 0) = None.
Proof.
  apply getPageIndex_no_match. intros j Hj.
  destruct j as [| [| j]]; [| | simpl in Hj; lia];
    (eexists; split; [reflexivity | simpl; congruence]).
Defined.

Lemma resolveDest_range (doc : PDFDocument) (d : option RawDest) (z : Z) :
  resolveDest doc d = Some z -> (1 <= z <= Z.of_nat (numPages doc))%Z.
Proof.
  unfold resolveDest. intros H.
  destruct d as [[n | l] |]; [destruct (String.eqb n "") | |]; try discriminate;
    repeat match type of H with
           | context [match ?x with _ => _ end] => destruct x eqn:?; try discriminate
           end;
    injection H as <-;
    match goal with
    | Hp : getPageIndex _ ?e = Some _ |- _ => destruct e; [| discriminate];
        destruct (getPageIndex_first_match _ _ _ _ Hp) as (Hk & _); lia
    end.
Qed.

Lemma processOutlineItem_entries (doc : PDFDocument) (r : RawOutlineItem) :
  forall d level e, In e (outline_entries d (processOutlineItem doc level r)) ->
  match e.2 with
  | mkOutlineItem _ page lvl ch =>
      lvl = (level + Z.of_nat e.1 - Z.of_nat d)%Z /\ (d <= e.1)%nat
      /\ (forall z, page = Some z -> (1 <= z <= Z.of_nat (numPages doc))%Z)
      /\ ch <> Some []
  end.
Proof.
  induction r as [title dest items Hitems] using raw_item_ind. intros d level e.
  simpl processOutlineItem. rewrite outline_entries_eq. intros [<- | He].
  - simpl. split; [lia |]. split; [lia |]. split; [apply resolveDest_range |].
    destruct items; discriminate.
  - destruct items as [| c cs]; [contradiction |].
    apply in_concat in He as (l & Hl & He).
    rewrite map_map in Hl. apply in_map_iff in Hl as (r & <- & Hr).
    rewrite List.Forall_forall in Hitems.
    specialize (Hitems r Hr (S d) (level + 1)%Z e He).
    destruct e as [n [t pg lv ch]]. simpl in *.
    destruct Hitems as (Hl & Hd & Hp & Hc). split; [lia |]. split; [lia |]. auto.
Qed.

(** X10. The outline [loadPDF] stores is never an empty list; each of its
    entries has [level] equal to its nesting depth, a [page] (when there
    is one) within [1..pageCount], and [children] either absent or
    non-empty. *)
Theorem loadPDF_outline_shape (md5_hex : string -> string) (env : Env) (p : string)
    (loadedPDFs reg' : Registry) (pid : string) (n : Z) (pdf : LoadedPDF)
    (items : list OutlineItem) :
  loadPDF md5_hex env p loadedPDFs = (Ok (pid, n), reg') ->
  reg' !! pid = Some pdf -> outline pdf = Some items ->
  items <> []
  /\ forall e, In e (concat (map (outline_entries 0) items)) ->
     match e.2 with
     | mkOutlineItem _ page lvl ch =>
         lvl = Z.of_nat e.1 /\ (forall z, page = Some z -> (1 <= z <= n)%Z) /\ ch <> Some []
     end.
Proof.
  intros Hl. destruct (loadPDF_Ok _ _ _ _ _ _ Hl) as (bytes & doc & _ & _ & Hres & Hreg).
  injection Hres as -> ->. subst reg'. rewrite lookup_insert_eq. intros [= <-]. simpl.
  unfold docOutline. destruct (getOutline doc) as [[| r raws] |]; try discriminate.
  intros [= <-]. split; [discriminate |]. intros e He.
  apply in_concat in He as (l & Hl' & He).
  apply in_map_iff in Hl' as (o & <- & Ho).
  change (In o (map (processOutlineItem doc 0) (r :: raws))) in Ho.
  apply in_map_iff in Ho as (x & <- & _).
  pose proof (processOutlineItem_entries doc x 0 0 e He) as Hx.
  destruct e as [k [t pg lv ch]]. simpl in *.
  destruct Hx as (Hlv & _ & Hp & Hc). split; [lia |]. auto.
Qed.

Lemma loadPDF_outline_shape_witness :
  [mkOutlineItem "Intro" (Some 2%Z) 0 (Some [mkOutlineItem "Part" None 1 None])] <> []
  /\ forall e, In e (concat (map (outline_entries 0)
                   [mkOutlineItem "Intro" (Some 2%Z) 0 (Some [mkOutlineItem "Part" None 1 None])])) ->
     match e.2 with
     | mkOutlineItem _ page lvl ch =>
         lvl = Z.of_nat e.1 /\ (forall z, page = Some z -> (1 <= z <= 2)%Z) /\ ch <> Some []
     end.
Proof.
  exact (loadPDF_outline_shape sample_md5 outline_env "report.pdf" ∅ _ "md5:report.pdf" 2
           (mkLoadedPDF "md5:report.pdf" "report.pdf" 2 ["one"; "two"] (Some [("Title", "Report")])
              (Some [mkOutlineItem "Intro" (Some 2%Z) 0 (Some [mkOutlineItem "Part" None 1 None])]))
           _ ltac:(vm_compute; reflexivity) ltac:(vm_compute; reflexivity) eq_refl).
Defined.

Lemma classifyImage_not_page (obj : ImageObj) (format : string) (data : ImageBytes) :
  classifyImage obj = Some (format, data) -> forall png, data <> PagePNG png.
Proof.
  unfold classifyImage. destruct (img_data obj) as [[| d0 ds] |]; try discriminate.
  repeat match goal with |- context [if ?b then _ else _] => destruct b end;
    intros H; try discriminate; injection H as _ <-; discriminate.
Qed.

Lemma scanOps_shape (page : ImagePage) (pageNum : Z) :
  forall ops idx,
  Forall (fun ii => ii_page ii = pageNum /\ forall png, ii_data ii <> PagePNG png)
    (scanOps page pageNum idx ops)
  /\ map ii_index (scanOps page pageNum idx ops)
     = map (fun k => idx + Z.of_nat k)%Z (seq 0 (length (scanOps page pageNum idx ops))).
Proof.
  induction ops as [| [fn name] ops IH]; intros idx; simpl; [split; [constructor | reflexivity] |].
  destruct ((fn =? 85)%Z || (fn =? 82)%Z || (fn =? 83)%Z); [| apply IH].
  destruct (ip_objs page name) as [obj |]; [| apply IH].
  destruct (classifyImage obj) as [[format data] |] eqn:Hc; [| apply IH].
  destruct (IH (idx + 1)%Z) as [Hf Hm]. split.
  - constructor; [| exact Hf]. split; [reflexivity |]. exact (classifyImage_not_page _ _ _ Hc).
  - cbn [map length seq]. rewrite Z.add_0_r, Hm, <- seq_shift, map_map. f_equal.
    apply map_ext. intros k. lia.
Qed.

Lemma extractImagesFromPage_dpi0 (page : ImagePage) (pageNum : Z) (imgs : list ImageInfo) :
  extractImagesFromPage page pageNum 0 = Ok imgs ->
  exists ops, ip_ops page = Some ops /\ imgs = scanOps page pageNum 0 ops.
Proof.
  unfold extractImagesFromPage. destruct (ip_ops page) as [ops |]; [| discriminate].
  intros H. exists ops. split; [reflexivity |]. revert H.
  destruct (scanOps page pageNum 0 ops) as [| i0 is] eqn:Hs.
  - destruct (Qlt_le_dec 0 0) as [Hq |]; [exfalso; exact (Qlt_irrefl 0 Hq) |].
    intros [= <-]. reflexivity.
  - intros [= <-]. reflexivity.
Qed.

Lemma listImagesLoop_shape (doc : ImageDoc) :
  forall n pageNum imgs, listImagesLoop doc pageNum n = Ok imgs ->
  exists ls, imgs = concat ls /\ length ls = n
    /\ forall j l, ls !! j = Some l ->
         Forall (fun ii => ii_page ii = (pageNum + Z.of_nat j)%Z
                           /\ forall png, ii_data ii <> PagePNG png) l
         /\ map ii_index l = map Z.of_nat (seq 0 (length l)).
Proof.
  induction n as [| n IH]; intros pageNum imgs; simpl.
  - intros [= <-]. exists []. split; [reflexivity |]. split; [reflexivity |].
    intros j l Hj. by rewrite lookup_nil in Hj.
  - destruct (idoc_getPage doc pageNum) as [page |]; [| discriminate].
    destruct (extractImagesFromPage page pageNum 0) as [pis | e] eqn:He; [| discriminate].
    destruct (listImagesLoop doc (pageNum + 1) n) as [more | e] eqn:Hm; [| discriminate].
    intros [= <-]. destruct (IH _ _ Hm) as (ls & -> & Hlen & Hls).
    destruct (extractImagesFromPage_dpi0 _ _ _ He) as (ops & _ & ->).
    exists (scanOps page pageNum 0 ops :: ls). split; [reflexivity |].
    split; [simpl; lia |]. intros [| j] l Hj; simpl in Hj.
    + injection Hj as <-. destruct (scanOps_shape page pageNum ops 0) as [Hf Hi].
      split.
      * eapply Forall_impl; [exact Hf |]. intros ii [Hp Hd]. split; [lia | exact Hd].
      * rewrite Hi. apply map_ext. intros k. lia.
    + destruct (Hls _ _ Hj) as [Hf Hi]. split; [| exact Hi].
      eapply Forall_impl; [exact Hf |]. intros ii [Hp Hd]. split; [lia | exact Hd].
Qed.

(** X11. [listImages] lists the embedded images page by page: the result is
    the concatenation of one list per page [1..numPages]; the images of
    page [j] carry [page = j] and the indices [0, 1, ...] in order, and
    none of them is a rendering of the page (it passes [dpi = 0]). *)
Theorem listImages_per_page (loadedPDFs : Registry) (doc : ImageDoc) (pdfId : string)
    (imgs : list ImageInfo) :
  listImages loadedPDFs doc pdfId = Ok imgs ->
  exists ls, imgs = concat ls /\ length ls = idoc_numPages doc
    /\ forall j l, ls !! j = Some l ->
         Forall (fun ii => ii_page ii = (Z.of_nat j + 1)%Z
                           /\ forall png, ii_data ii <> PagePNG png) l
         /\ map ii_index l = map Z.of_nat (seq 0 (length l)).
Proof.
  unfold listImages. destruct (loadedPDFs !! pdfId) as [pdf |]; [| discriminate].
  intros H. destruct (listImagesLoop_shape _ _ _ _ H) as (ls & Hc & Hlen & Hls).
  exists ls. split; [exact Hc |]. split; [exact Hlen |]. intros j l Hj.
  destruct (Hls _ _ Hj) as [Hf Hi]. split; [| exact Hi].
  eapply Forall_impl; [exact Hf |]. intros ii [Hp Hd]. split; [lia | exact Hd].
Qed.

Lemma listImages_per_page_witness :
  exists ls, [mkImageInfo 1 0 4 4 "jpeg" (Embedded [255; 216; 1]%Z);
              mkImageInfo 1 1 2 1 "png" (ConvertedRaw photo_raw)] = concat ls
    /\ length ls = idoc_numPages photo_doc
    /\ forall j l, ls !! j = Some l ->
         Forall (fun ii => ii_page ii = (Z.of_nat j + 1)%Z
                           /\ forall png, ii_data ii <> PagePNG png) l
         /\ map ii_index l = map Z.of_nat (seq 0 (length l)).
Proof.
  exact (listImages_per_page sample_registry photo_doc "k" _ ltac:(vm_compute; reflexivity)).
Defined.

Lemma extractImagesLoop_listImagesLoop (doc : ImageDoc) :
  forall n pn, (pn + n <= idoc_numPages doc)%nat ->
  extractImagesLoop doc 0 (map (fun i => Z.of_nat i + 1)%Z (seq pn n))
  = match listImagesLoop doc (Z.of_nat pn + 1) n with
    | Ok l => Ok (map toExtracted l)
    | Err e => Err e
    end.
Proof.
  induction n as [| n IH]; intros pn Hn; [reflexivity |].
  cbn [seq map extractImagesLoop listImagesLoop].
  replace ((Z.of_nat pn + 1 <? 1)%Z || (Z.of_nat (idoc_numPages doc) <? Z.of_nat pn + 1)%Z)
    with false by (symmetry; apply orb_false_iff; split; apply Z.ltb_ge; lia).
  destruct (idoc_getPage doc (Z.of_nat pn + 1)) as [page |]; [| reflexivity].
  destruct (extractImagesFromPage page (Z.of_nat pn + 1) 0) as [imgs | e]; [| reflexivity].
  rewrite IH by lia. replace (Z.of_nat (S pn) + 1)%Z with (Z.of_nat pn + 1 + 1)%Z by lia.
  destruct (listImagesLoop doc (Z.of_nat pn + 1 + 1) n); [| reflexivity].
  rewrite map_app. reflexivity.
Qed.

(** X12. [listImages(id)] gives the same images, in the same order, as
    [extractImages(id)] over all pages with [dpi = 0] (with the format
    defaulted and the bytes kept), and fails exactly when it fails. *)
Theorem listImages_as_extractImages (loadedPDFs : Registry) (doc : ImageDoc) (pdfId : string) :
  extractImages loadedPDFs doc pdfId None 0
  = match listImages loadedPDFs doc pdfId with
    | Ok l => Ok (map toExtracted l)
    | Err e => Err e
    end.
Proof.
  unfold extractImages, listImages. destruct (loadedPDFs !! pdfId); [| reflexivity].
  rewrite (extractImagesLoop_listImagesLoop doc (idoc_numPages doc) 0) by lia. reflexivity.
Qed.

(** X13. A non-null [extractImage(id, p, k)] is an image of page [p] with
    index [k], one of those [extractImages(id, [p])] returns. *)
Theorem extractImage_found (loadedPDFs : Registry) (doc : ImageDoc) (pdfId : string)
    (pageNumber imageIndex : Z) (dpi : Q) (img : ExtractedImage) :
  extractImage loadedPDFs doc pdfId pageNumber imageIndex dpi = Ok (Some img) ->
  ei_page img = pageNumber /\ ei_index img = imageIndex
  /\ exists imgs, extractImages loadedPDFs doc pdfId (Some [pageNumber]) dpi = Ok imgs
                  /\ In img imgs.
Proof.
  unfold extractImage.
  destruct (extractImages loadedPDFs doc pdfId (Some [pageNumber]) dpi) as [imgs | e];
    [| discriminate].
  intros [= Hf]. destruct (List.find_some _ _ Hf) as [Hin Hb].
  apply andb_true_iff in Hb as [Hp Hi]. apply Z.eqb_eq in Hp, Hi.
  split; [exact Hp |]. split; [exact Hi |]. eauto.
Qed.

Lemma extractImage_found_witness :
  ei_page (mkExtractedImage 1 1 2 1 "png" (ConvertedRaw photo_raw)) = 1%Z
  /\ ei_index (mkExtractedImage 1 1 2 1 "png" (ConvertedRaw photo_raw)) = 1%Z
  /\ exists imgs, extractImages sample_registry photo_doc "k" (Some [1%Z]) 96 = Ok imgs
                  /\ In (mkExtractedImage 1 1 2 1 "png" (ConvertedRaw photo_raw)) imgs.
Proof.
  exact (extractImage_found sample_registry photo_doc "k" 1 1 96 _ ltac:(vm_compute; reflexivity)).
Defined.

(** X14. For a loaded id, [extractImage] with a page number outside
    [1..numPages] of the reopened document returns [null] (no error). *)
Theorem extractImage_out_of_range (loadedPDFs : Registry) (doc : ImageDoc) (pdfId : string)
    (pdf : LoadedPDF) (pageNumber imageIndex : Z) (dpi : Q) :
  loadedPDFs !! pdfId = Some pdf ->
  (pageNumber < 1 \/ Z.of_nat (idoc_numPages doc) < pageNumber)%Z ->
  extractImage loadedPDFs doc pdfId pageNumber imageIndex dpi = Ok None.
Proof.
  intros Hl Hp. unfold extractImage, extractImages. rewrite Hl. simpl.
  replace ((pageNumber <? 1)%Z || (Z.of_nat (idoc_numPages doc) <? pageNumber)%Z) with true;
    [reflexivity |].
  symmetry. apply orb_true_iff. destruct Hp; [left | right]; apply Z.ltb_lt; lia.
Qed.

Lemma extractImage_out_of_range_witness :
  extractImage sample_registry photo_doc "k" 4 0 96 = Ok None.
Proof.
  apply (extractImage_out_of_range sample_registry photo_doc "k" sample_pdf); [reflexivity |].
  right. simpl. lia.
Defined.

Lemma extractImagesLoop_app (doc : ImageDoc) (dpi : Q) (l1 l2 : list Z) :
  extractImagesLoop doc dpi (l1 ++ l2)
  = match extractImagesLoop doc dpi l1 with
    | Err e => Err e
    | Ok a => match extractImagesLoop doc dpi l2 with
              | Err e => Err e
              | Ok b => Ok (a ++ b)
              end
    end.
Proof.
  induction l1 as [| z l1 IH]; simpl.
  - destruct (extractImagesLoop doc dpi l2); reflexivity.
  - destruct ((z <? 1)%Z || (Z.of_nat (idoc_numPages doc) <? z)%Z); [exact IH |].
    destruct (idoc_getPage doc z) as [page |]; [| reflexivity].
    destruct (extractImagesFromPage page z dpi) as [imgs | e]; [| reflexivity].
    rewrite IH. destruct (extractImagesLoop doc dpi l1) as [a | e]; [| reflexivity].
    destruct (extractImagesLoop doc dpi l2) as [b | e]; [| reflexivity].
    rewrite app_assoc. reflexivity.
Qed.

(** X15. [extractImages] over a concatenation of page lists is the
    concatenation of the two answers; it fails when either part fails,
    with the error of the first part when both do. *)
Theorem extractImages_app (loadedPDFs : Registry) (doc : ImageDoc) (pdfId : string)
    (dpi : Q) (l1 l2 : list Z) :
  extractImages loadedPDFs doc pdfId (Some (l1 ++ l2)) dpi
  = match extractImages loadedPDFs doc pdfId (Some l1) dpi with
    | Err e => Err e
    | Ok a => match extractImages loadedPDFs doc pdfId (Some l2) dpi with
              | Err e => Err e
              | Ok b => Ok (a ++ b)
              end
    end.
Proof.
  unfold extractImages. destruct (loadedPDFs !! pdfId); [| reflexivity].
  apply extractImagesLoop_app.
Qed.

Lemma renderPage_page (loadedPDFs : Registry) (doc : ImageDoc) (pdfId : string)
    (pageNumber : Z) (dpi : Q) (format : string) (rp : RenderedPage) :
  renderPage loadedPDFs doc pdfId pageNumber dpi format = Ok rp -> rp_page rp = pageNumber.
Proof.
  unfold renderPage. destruct (loadedPDFs !! pdfId); [| discriminate].
  destruct (_ || _); [discriminate |]. destruct (idoc_getPage doc pageNumber); [| discriminate].
  destruct (ip_paint _ _ _); [| discriminate]. intros [= <-]. reflexivity.
Qed.

Lemma renderPagesLoop_spec (loadedPDFs : Registry) (doc : ImageDoc) (pdfId : string)
    (pdf : LoadedPDF) (dpi : Q) (format : string) :
  forall l, let rps := renderPagesLoop loadedPDFs doc pdfId pdf dpi format l in
  map rp_page rps `sublist_of` List.filter (in_page_range pdf) l
  /\ Forall (fun rp => renderPage loadedPDFs doc pdfId (rp_page rp) dpi format = Ok rp) rps
  /\ ((forall z, In z l -> (1 <= z <= pageCount pdf)%Z ->
         exists rp, renderPage loadedPDFs doc pdfId z dpi format = Ok rp) ->
      map rp_page rps = List.filter (in_page_range pdf) l).
Proof.
  induction l as [| z l IH]; simpl; [split; [constructor | split; [constructor | auto]] |].
  destruct IH as (Hs & Hf & Ha).
  change (in_page_range pdf z) with ((1 <=? z)%Z && (z <=? pageCount pdf)%Z).
  destruct ((1 <=? z)%Z && (z <=? pageCount pdf)%Z) eqn:Hz.
  - destruct (renderPage loadedPDFs doc pdfId z dpi format) as [rp | e] eqn:Hr.
    + cbn [map]. rewrite (renderPage_page _ _ _ _ _ _ _ Hr).
      split; [by apply sublist_skip |]. split.
      * constructor; [by rewrite (renderPage_page _ _ _ _ _ _ _ Hr) | exact Hf].
      * intros Hall. f_equal. apply Ha. intros y Hy. apply Hall. by right.
    + split; [by apply sublist_cons |]. split; [exact Hf |].
      intros Hall. exfalso. apply andb_true_iff in Hz as [H1 H2].
      apply Z.leb_le in H1, H2.
      destruct (Hall z (or_introl eq_refl) (conj H1 H2)) as [rp Hrp]. congruence.
  - split; [exact Hs |]. split; [exact Hf |].
    intros Hall. apply Ha. intros y Hy. apply Hall. by right.
Qed.

(** X16. [renderPages(id, pages)] for a loaded id never throws. Each rendered
    page is the answer of [renderPage] for its number; their numbers are
    the requested numbers within [1..pageCount], in request order, with
    the pages whose rendering threw left out; when none throws, all of
    them are there, duplicates included. *)
Theorem renderPages_requested (loadedPDFs : Registry) (doc : ImageDoc) (pdfId : string)
    (pdf : LoadedPDF) (l : list Z) (dpi : Q) (format : string) :
  loadedPDFs !! pdfId = Some pdf ->
  exists rps, renderPages loadedPDFs doc pdfId (Some l) dpi format = Ok rps
  /\ map rp_page rps `sublist_of` List.filter (in_page_range pdf) l
  /\ Forall (fun rp => renderPage loadedPDFs doc pdfId (rp_page rp) dpi format = Ok rp) rps
  /\ ((forall z, In z l -> (1 <= z <= pageCount pdf)%Z ->
         exists rp, renderPage loadedPDFs doc pdfId z dpi format = Ok rp) ->
      map rp_page rps = List.filter (in_page_range pdf) l).
Proof.
  intros Hl. unfold renderPages. rewrite Hl. eexists. split; [reflexivity |].
  apply renderPagesLoop_spec.
Qed.

Lemma renderPages_requested_witness :
  exists rps, renderPages sample_registry photo_doc "k" (Some [2; 9; 2]%Z) 72 "png" = Ok rps
  /\ map rp_page rps `sublist_of` List.filter (in_page_range sample_pdf) [2; 9; 2]%Z
  /\ Forall (fun rp => renderPage sample_registry photo_doc "k" (rp_page rp) 72 "png" = Ok rp) rps
  /\ ((forall z, In z [2; 9; 2]%Z -> (1 <= z <= pageCount sample_pdf)%Z ->
         exists rp, renderPage sample_registry photo_doc "k" z 72 "png" = Ok rp) ->
      map rp_page rps = List.filter (in_page_range sample_pdf) [2; 9; 2]%Z).
Proof. exact (renderPages_requested sample_registry photo_doc "k" sample_pdf _ 72 "png" eq_refl). Defined.

(** X17. [renderPages(id)] without page numbers renders [1..pageCount] in
    order; when every page renders, the result has exactly those pages. *)
Theorem renderPages_default (loadedPDFs : Registry) (doc : ImageDoc) (pdfId : string)
    (pdf : LoadedPDF) (dpi : Q) (format : string) :
  loadedPDFs !! pdfId = Some pdf ->
  (forall z, (1 <= z <= pageCount pdf)%Z ->
     exists rp, renderPage loadedPDFs doc pdfId z dpi format = Ok rp) ->
  exists rps, renderPages loadedPDFs doc pdfId None dpi format = Ok rps
  /\ map rp_page rps = Z_range 1 (pageCount pdf).
Proof.
  intros Hl Hall. unfold renderPages. rewrite Hl. eexists. split; [reflexivity |].
  destruct (renderPagesLoop_spec loadedPDFs doc pdfId pdf dpi format
              (map (fun i => Z.of_nat i + 1)%Z (seq 0 (Z.to_nat (pageCount pdf)))))
    as (_ & _ & Ha).
  rewrite Ha by (intros z _; apply Hall).
  unfold Z_range. replace (pageCount pdf - 1 + 1)%Z with (pageCount pdf) by lia.
  rewrite (List.filter_ext_in _ (fun _ => true)), List.filter_true.
  - apply map_ext. intros k. lia.
  - intros z Hz. apply in_map_iff in Hz as (k & <- & Hk). apply in_seq in Hk.
    unfold in_page_range. apply andb_true_iff. split; apply Z.leb_le; lia.
Qed.

Lemma renderPages_default_witness :
  exists rps, renderPages sample_registry photo_doc "k" None 72 "png" = Ok rps
  /\ map rp_page rps = Z_range 1 (pageCount sample_pdf).
Proof.
  apply (renderPages_default sample_registry photo_doc "k" sample_pdf); [reflexivity |].
  intros z Hz. simpl in Hz.
  assert (z = 1 \/ z = 2 \/ z = 3)%Z as [-> | [-> | ->]] by lia;
    (eexists; vm_compute; reflexivity).
Defined.

Lemma no_brace_app (a b : string) : no_brace (a +:+ b) = no_brace a && no_brace b.
Proof.
  induction a as [| c a IH]; [reflexivity |].
  change (String c a +:+ b) with (String c (a +:+ b)). cbn [no_brace].
  rewrite IH. apply andb_assoc.
Qed.

Lemma no_brace_pretty_N_go (x : N) : forall s, no_brace s = true -> no_brace (pretty_N_go x s) = true.
Proof.
  induction (N.lt_wf_0 x) as [x _ IH]. intros s Hs.
  destruct (decide (x = 0%N)) as [-> | Hx]; [by rewrite pretty_N_go_0 |].
  rewrite pretty_N_go_step by lia. apply IH; [apply N.div_lt; lia |].
  cbn [no_brace]. rewrite Hs, andb_true_r.
  unfold pretty_N_char. generalize (x `mod` 10)%N. intros [| p]; [reflexivity |].
  do 4 (try (destruct p as [p | p |]; try reflexivity)); reflexivity.
Qed.

Lemma no_brace_pretty (z : Z) : no_brace (pretty z) = true.
Proof.
  assert (Hp : forall p, no_brace (pretty (N.pos p)) = true).
  { intros p. unfold pretty, pretty_N. case_decide; [reflexivity |].
    apply no_brace_pretty_N_go. reflexivity. }
  destruct z as [| p | p]; [reflexivity | apply Hp |].
  change (no_brace ("-" +:+ pretty (N.pos p)) = true).
  rewrite no_brace_app, Hp. reflexivity.
Qed.

Lemma prefix_cons (a b : ascii) (t s : string) :
  String.prefix (String a t) (String b s) = if ascii_dec a b then String.prefix t s else false.
Proof. reflexivity. Qed.

Lemma replaceLit_no_brace (t rep : string) :
  forall s, no_brace s = true -> replaceLit (String "{" t) rep 0 s = s.
Proof.
  induction s as [| c s IH]; intros Hs; [reflexivity |].
  cbn [no_brace] in Hs. apply andb_true_iff in Hs as [Hc Hs].
  cbn [replaceLit]. rewrite prefix_cons.
  destruct (ascii_dec "{" c) as [<- | _]; [discriminate |].
  by rewrite IH.
Qed.

Lemma replaceLit_app_no_brace (t rep a s : string) :
  no_brace a = true ->
  replaceLit (String "{" t) rep 0 (a +:+ s) = a +:+ replaceLit (String "{" t) rep 0 s.
Proof.
  induction a as [| c a IH]; intros Ha; [reflexivity |].
  cbn [no_brace] in Ha. apply andb_true_iff in Ha as [Hc Ha].
  change (String c a +:+ s) with (String c (a +:+ s)).
  change (String c a +:+ replaceLit (String "{" t) rep 0 s)
    with (String c (a +:+ replaceLit (String "{" t) rep 0 s)).
  cbn [replaceLit]. rewrite prefix_cons.
  destruct (ascii_dec "{" c) as [<- | _]; [discriminate |].
  by rewrite IH.
Qed.

Lemma prefix_app_self (t s : string) : String.prefix t (t +:+ s) = true.
Proof.
  induction t as [| c t IH]; [by destruct s |].
  change (String c t +:+ s) with (String c (t +:+ s)).
  rewrite prefix_cons. destruct (ascii_dec c c); [exact IH | contradiction].
Qed.

Lemma replaceLit_skip (tok rep x s : string) :
  replaceLit tok rep (String.length x) (x +:+ s) = replaceLit tok rep 0 s.
Proof.
  induction x as [| c x IH]; [reflexivity |].
  change (String c x +:+ s) with (String c (x +:+ s)). exact IH.
Qed.

Lemma replaceLit_tok (t rep s : string) :
  replaceLit (String "{" t) rep 0 (String "{" t +:+ s)
  = rep +:+ replaceLit (String "{" t) rep 0 s.
Proof.
  change (String "{" t +:+ s) with (String "{" (t +:+ s)).
  cbn [replaceLit]. rewrite prefix_cons.
  destruct (ascii_dec "{" "{") as [_ | []]; [| reflexivity]. rewrite prefix_app_self.
  change (String.length (String "{" t) - 1) with (String.length t - 0).
  rewrite Nat.sub_0_r, replaceLit_skip. reflexivity.
Qed.

Lemma replaceLit_mismatch (tok rep : string) (ch : ascii) (s : string) :
  String.prefix tok (String ch s) = false ->
  replaceLit tok rep 0 (String ch s) = String ch (replaceLit tok rep 0 s).
Proof. intros H. cbn [replaceLit]. by rewrite H. Qed.

(** X18. A path pattern without ["{"] is left as it is by
    [expandPathPattern], whatever the replacements: every image that one
    [extract_images] call saves then goes to the same file. *)
Theorem expandPathPattern_no_placeholder (pattern : string) :
  no_brace pattern = true ->
  (forall replacements, expandPathPattern pattern replacements = pattern)
  /\ forall image, imageFilePath pattern image = pattern.
Proof.
  intros Hp.
  assert (H : forall replacements, expandPathPattern pattern replacements = pattern).
  { intros reps. unfold expandPathPattern. induction reps as [| kv reps IH]; [reflexivity |].
    cbn [fold_left].
    change ("{" +:+ kv.1 +:+ "}") with (String "{" (kv.1 +:+ "}")).
    rewrite replaceLit_no_brace by exact Hp. exact IH. }
  split; [exact H |]. intros image. apply H.
Qed.

Lemma expandPathPattern_no_placeholder_witness :
  (forall replacements, expandPathPattern "out/image.png" replacements = "out/image.png")
  /\ forall image, imageFilePath "out/image.png" image = "out/image.png".
Proof. apply expandPathPattern_no_placeholder. reflexivity. Defined.

(** X19. With a pattern [a{page}b{index}c] whose parts [a], [b], [c] have no
    ["{"], the path of an image is [a], its page number, [b], its index
    and [c]. *)
Theorem imageFilePath_page_index (a b c : string) (image : ExtractedImage) :
  no_brace a = true -> no_brace b = true -> no_brace c = true ->
  imageFilePath (a +:+ "{page}" +:+ b +:+ "{index}" +:+ c) image
  = a +:+ pretty (ei_page image) +:+ b +:+ pretty (ei_index image) +:+ c.
Proof.
  intros Ha Hb Hc. unfold imageFilePath, expandPathPattern. cbn [fold_left fst snd].
  change ("{" +:+ "page" +:+ "}") with (String "{" "page}").
  change ("{" +:+ "index" +:+ "}") with (String "{" "index}").
  change "{page}" with (String "{" "page}").
  rewrite (replaceLit_app_no_brace _ _ a _ Ha), replaceLit_tok,
    (replaceLit_app_no_brace _ _ b _ Hb).
  change ("{index}" +:+ c) with (String "{" ("index}" +:+ c)).
  rewrite replaceLit_mismatch by reflexivity.
  change (String "{" (replaceLit (String "{" "page}") (pretty (ei_page image)) 0 ("index}" +:+ c)))
    with ("{" +:+ replaceLit (String "{" "page}") (pretty (ei_page image)) 0 ("index}" +:+ c)).
  rewrite (replaceLit_app_no_brace _ _ "index}" _ eq_refl), (replaceLit_no_brace _ _ c Hc).
  change ("{" +:+ "index}" +:+ c) with (String "{" "index}" +:+ c).
  rewrite (replaceLit_app_no_brace _ _ a _ Ha),
    (replaceLit_app_no_brace _ _ (pretty (ei_page image)) _ (no_brace_pretty _)),
    (replaceLit_app_no_brace _ _ b _ Hb), replaceLit_tok, (replaceLit_no_brace _ _ c Hc).
  reflexivity.
Qed.

Lemma imageFilePath_page_index_witness :
  imageFilePath ("out/p" +:+ "{page}" +:+ "_" +:+ "{index}" +:+ ".png")
    (mkExtractedImage 3 12 2 1 "png" (ConvertedRaw photo_raw))
  = "out/p" +:+ pretty 3%Z +:+ "_" +:+ pretty 12%Z +:+ ".png".
Proof. exact (imageFilePath_page_index "out/p" "_" ".png" _ eq_refl eq_refl eq_refl). Defined.

Lemma join_cons (sep x : string) (l : list string) :
  join sep (x :: l) = match l with [] => x | _ => x +:+ sep +:+ join sep l end.
Proof. destruct l; reflexivity. Qed.

Lemma splitFF_not_nil (s : string) : PdfParse.splitFF s <> [].
Proof.
  destruct s as [| c s]; simpl; [discriminate |].
  destruct (Ascii.eqb c PdfParse.ff); [discriminate |].
  destruct (PdfParse.splitFF s); discriminate.
Qed.

(** X20. [text.split(/\f/)] cuts the text at every form feed: the pieces
    have no form feed, there is one more piece than form feeds, and
    joining them with ["\f"] gives the text back. *)
Theorem splitFF_round_trip (s : string) :
  join (String PdfParse.ff "") (PdfParse.splitFF s) = s
  /\ length (PdfParse.splitFF s)
     = S (length (List.filter (fun c => Ascii.eqb c PdfParse.ff) (list_ascii_of_string s)))
  /\ Forall (fun piece => ~ In PdfParse.ff (list_ascii_of_string piece)) (PdfParse.splitFF s).
Proof.
  induction s as [| c s (IHj & IHl & IHf)]; [split; [reflexivity | split; [reflexivity |]] |].
  - constructor; [intros [] | constructor].
  - cbn [PdfParse.splitFF list_ascii_of_string List.filter].
    pose proof (splitFF_not_nil s) as Hne.
    destruct (Ascii.eqb_spec c PdfParse.ff) as [-> | Hc].
    + split; [| split].
      * rewrite join_cons. destruct (PdfParse.splitFF s) as [| r rs]; [contradiction |].
        change ("" +:+ String PdfParse.ff "" +:+ join (String PdfParse.ff "") (r :: rs))
          with (String PdfParse.ff (join (String PdfParse.ff "") (r :: rs))).
        by rewrite IHj.
      * simpl. by rewrite IHl.
      * constructor; [intros [] | exact IHf].
    + destruct (PdfParse.splitFF s) as [| r rs]; [contradiction |]. split; [| split].
      * rewrite join_cons. rewrite join_cons in IHj.
        destruct rs as [| r' rs]; [by rewrite IHj |].
        change (String c r +:+ String PdfParse.ff "" +:+ join (String PdfParse.ff "") (r' :: rs))
          with (String c (r +:+ String PdfParse.ff "" +:+ join (String PdfParse.ff "") (r' :: rs))).
        by rewrite IHj.
      * exact IHl.
      * inversion IHf as [| ? ? Hr Hrs]; subst. constructor; [| exact Hrs].
        simpl. intros [Heq | Hin]; [congruence | exact (Hr Hin)].
Qed.

(** X21. The pdf-parse [loadPDF] answers [numpages] as the page count, but
    stores the form-feed pieces of the text as pages: [extractPage] of a
    page in [1..numpages] gives the piece of that rank, or [""] when the
    text has fewer pieces; the page numbers [searchPDF] reports count
    pieces, so they can exceed [numpages]. *)
Theorem PdfParse_load_then_query (md5_hex : string -> string)
    (readFile : string -> option (list Byte.byte))
    (parse : list Byte.byte -> option PdfParse.ParseData) (p : string)
    (loadedPDFs : Registry) (bytes : list Byte.byte) (data : PdfParse.ParseData) :
  readFile p = Some bytes -> parse bytes = Some data ->
  let reg' := snd (PdfParse.loadPDF md5_hex readFile parse p loadedPDFs) in
  fst (PdfParse.loadPDF md5_hex readFile parse p loadedPDFs)
    = Ok (md5_hex p, PdfParse.pd_numpages data)
  /\ (forall k, (1 <= k <= PdfParse.pd_numpages data)%Z ->
        extractPage reg' (md5_hex p) k
        = Ok (or_empty (PdfParse.splitFF (PdfParse.pd_text data) !! Z.to_nat (k - 1))))
  /\ (forall query cs rs, PdfParse.searchPDF reg' (md5_hex p) query cs = Some (Ok rs) ->
        forall r, In r rs ->
          (1 <= sr_page r <= Z.of_nat (length (PdfParse.splitFF (PdfParse.pd_text data))))%Z).
Proof.
  intros Hr Hp reg'. subst reg'. unfold PdfParse.loadPDF. rewrite Hr, Hp. cbn [fst snd].
  split; [reflexivity |].
  set (pgs := if String.eqb (PdfParse.pd_text data) "" then [] else PdfParse.splitFF (PdfParse.pd_text data)).
  assert (Hpg : forall i, or_empty (pgs !! i) = or_empty (PdfParse.splitFF (PdfParse.pd_text data) !! i)
                /\ length pgs <= length (PdfParse.splitFF (PdfParse.pd_text data))).
  { intros i. subst pgs. destruct (String.eqb_spec (PdfParse.pd_text data) "") as [-> | _];
      [| split; [reflexivity | lia]].
    split; [| simpl; lia]. destruct i; reflexivity. }
  split.
  - intros k Hk. unfold extractPage. rewrite lookup_insert_eq. cbn [pageCount pages].
    replace ((k <? 1)%Z || (PdfParse.pd_numpages data <? k)%Z) with false
      by (symmetry; apply orb_false_iff; split; apply Z.ltb_ge; lia).
    f_equal. apply Hpg.
  - intros query cs rs Hs r Hin. unfold PdfParse.searchPDF in Hs.
    rewrite lookup_insert_eq in Hs. cbn [pages] in Hs.
    destruct (searchPages _ 0 pgs) as [rs' |] eqn:Hsp; [| discriminate].
    injection Hs as <-. apply list_elem_of_In, list_elem_of_lookup in Hin as [k Hk].
    destruct (proj1 (searchPages_spec _ _ _ _ Hsp) k r Hk) as (i & pt & Hi & Hpage & _).
    apply lookup_lt_Some in Hi. destruct (Hpg 0) as [_ Hlen]. lia.
Qed.

Lemma PdfParse_load_then_query_witness :
  let readFile := fun f => if String.eqb f "a.pdf" then Some [] else None in
  let parse := fun _ : list Byte.byte =>
    Some (PdfParse.mkParseData ("one" +:+ String PdfParse.ff "two" +:+ String PdfParse.ff "three") 2 None) in
  let reg' := snd (PdfParse.loadPDF sample_md5 readFile parse "a.pdf" ∅) in
  fst (PdfParse.loadPDF sample_md5 readFile parse "a.pdf" ∅) = Ok (sample_md5 "a.pdf", 2%Z)
  /\ (forall k, (1 <= k <= 2)%Z ->
        extractPage reg' (sample_md5 "a.pdf") k
        = Ok (or_empty (PdfParse.splitFF ("one" +:+ String PdfParse.ff "two" +:+ String PdfParse.ff "three")
                          !! Z.to_nat (k - 1))))
  /\ (forall query cs rs, PdfParse.searchPDF reg' (sample_md5 "a.pdf") query cs = Some (Ok rs) ->
        forall r, In r rs ->
          (1 <= sr_page r <= Z.of_nat (length (PdfParse.splitFF
                ("one" +:+ String PdfParse.ff "two" +:+ String PdfParse.ff "three"))))%Z).
Proof.
  exact (PdfParse_load_then_query sample_md5 (fun f => if String.eqb f "a.pdf" then Some [] else None)
           (fun _ => Some (PdfParse.mkParseData ("one" +:+ String PdfParse.ff "two" +:+ String PdfParse.ff "three") 2 None))
           "a.pdf" ∅ [] _ eq_refl eq_refl).
Defined.

Lemma extractImagesFromPage_pages (page : ImagePage) (pageNum : Z) (dpi : Q)
    (imgs : list ImageInfo) :
  extractImagesFromPage page pageNum dpi = Ok imgs -> Forall (fun ii => ii_page ii = pageNum) imgs.
Proof.
  unfold extractImagesFromPage. destruct (ip_ops page) as [ops |]; [| discriminate].
  destruct (scanOps_shape page pageNum ops 0) as [Hf _]. revert Hf.
  destruct (scanOps page pageNum 0 ops) as [| i0 is] eqn:Hs; intros Hf.
  - destruct (Qlt_le_dec 0 dpi); [| intros [= <-]; constructor].
    destruct (ip_paint page _ _); intros [= <-]; repeat constructor.
  - intros [= <-]. eapply Forall_impl; [exact Hf |]. intros ii [Hp _]. exact Hp.
Qed.

Lemma extractImagesLoop_pages (doc : ImageDoc) (dpi : Q) :
  forall l images, extractImagesLoop doc dpi l = Ok images ->
  Forall (fun image => In (ei_page image) l
                       /\ (1 <= ei_page image <= Z.of_nat (idoc_numPages doc))%Z) images.
Proof.
  induction l as [| z l IH]; intros images; simpl; [intros [= <-]; constructor |].
  destruct ((z <? 1)%Z || (Z.of_nat (idoc_numPages doc) <? z)%Z) eqn:Hz.
  - intros H. eapply Forall_impl; [exact (IH _ H) |]. intros img [Hi Hr]. split; [by right | exact Hr].
  - apply orb_false_iff in Hz as [H1 H2]. apply Z.ltb_ge in H1, H2.
    destruct (idoc_getPage doc z) as [page |]; [| discriminate].
    destruct (extractImagesFromPage page z dpi) as [imgs | e] eqn:He; [| discriminate].
    destruct (extractImagesLoop doc dpi l) as [more | e] eqn:Hm; [| discriminate].
    intros [= <-]. apply Forall_app. split.
    + apply Forall_map. eapply Forall_impl; [exact (extractImagesFromPage_pages _ _ _ _ He) |].
      intros ii Hp. simpl. rewrite Hp. split; [by left | lia].
    + eapply Forall_impl; [exact (IH _ eq_refl) |]. intros img [Hi Hr]. split; [by right | exact Hr].
Qed.

(** X22. Every image [extractImages] returns comes from a page within
    [1..numPages] of the reopened document, and from one of the
    requested pages when page numbers are given. *)
Theorem extractImages_pages (loadedPDFs : Registry) (doc : ImageDoc) (pdfId : string)
    (pageNumbers : option (list Z)) (dpi : Q) (images : list ExtractedImage) :
  extractImages loadedPDFs doc pdfId pageNumbers dpi = Ok images ->
  Forall (fun image => match pageNumbers with Some l => In (ei_page image) l | None => True end
                       /\ (1 <= ei_page image <= Z.of_nat (idoc_numPages doc))%Z) images.
Proof.
  unfold extractImages. destruct (loadedPDFs !! pdfId); [| discriminate]. intros H.
  eapply Forall_impl; [exact (extractImagesLoop_pages _ _ _ _ H) |].
  intros img [Hi Hr]. split; [destruct pageNumbers; [exact Hi | exact I] | exact Hr].
Qed.

Lemma extractImages_pages_witness :
  Forall (fun image => In (ei_page image) [1; 3]%Z
                       /\ (1 <= ei_page image <= Z.of_nat (idoc_numPages photo_doc))%Z)
    [mkExtractedImage 1 0 4 4 "jpeg" (Embedded [255; 216; 1]%Z);
     mkExtractedImage 1 1 2 1 "png" (ConvertedRaw photo_raw);
     mkExtractedImage 3 0 9 11 "png" (PagePNG [])].
Proof.
  exact (extractImages_pages sample_registry photo_doc "k" (Some [1; 3]%Z) 1 _
           ltac:(vm_compute; reflexivity)).
Defined.

(** X23. With an [outputPath], the [extract_images] tool writes one file per
    image, in order, and names the file of the first image as "First
    image saved to"; when there is no image it writes nothing, yet names
    the path of page 1, index 0. *)
Theorem extract_images_saved_files (loadedPDFs : Registry) (doc : ImageDoc) (pdfId : string)
    (pageNumbers : option (list Z)) (dpi : Q) (images : list ExtractedImage) (outputPath : string) :
  extractImages loadedPDFs doc pdfId pageNumbers dpi = Ok images ->
  map fst (extractImagesSaves outputPath images) = map (imageFilePath outputPath) images
  /\ (images = [] ->
      extractImagesSaves outputPath images = []
      /\ extractImagesFirstPath outputPath images
         = expandPathPattern outputPath [("page", 1%Z); ("index", 0%Z)])
  /\ (images <> [] ->
      head (map fst (extractImagesSaves outputPath images))
      = Some (extractImagesFirstPath outputPath images)).
Proof.
  intros H. pose proof (extractImages_pages _ _ _ _ _ _ H) as Hp.
  split; [unfold extractImagesSaves; rewrite map_map; reflexivity |].
  split; [intros ->; split; reflexivity |].
  intros Hne. destruct images as [| img rest]; [contradiction |].
  inversion Hp as [| ? ? [_ Hr] _]; subst.
  simpl. f_equal. unfold imageFilePath, extractImagesFirstPath, js_or.
  destruct (Z.eqb_spec (ei_page img) 0); [lia |].
  destruct (Z.eqb_spec (ei_index img) 0) as [-> |]; reflexivity.
Qed.

Lemma extract_images_saved_files_witness :
  let imgs := [mkExtractedImage 1 0 4 4 "jpeg" (Embedded [255; 216; 1]%Z);
               mkExtractedImage 1 1 2 1 "png" (ConvertedRaw (mkImageObj (Some [1; 2; 3]%Z) 2 1 3))] in
  extractImages sample_registry photo_doc "k" (Some [1%Z]) 1 = Ok imgs
  /\ map fst (extractImagesSaves "img/{page}-{index}.png" imgs)
      = map (imageFilePath "img/{page}-{index}.png") imgs
  /\ (imgs = [] ->
      extractImagesSaves "img/{page}-{index}.png" imgs = []
      /\ extractImagesFirstPath "img/{page}-{index}.png" imgs
         = expandPathPattern "img/{page}-{index}.png" [("page", 1%Z); ("index", 0%Z)])
  /\ (imgs <> [] ->
      head (map fst (extractImagesSaves "img/{page}-{index}.png" imgs))
      = Some (extractImagesFirstPath "img/{page}-{index}.png" imgs)).
Proof.
  intros imgs. split; [vm_compute; reflexivity |].
  exact (extract_images_saved_files sample_registry photo_doc "k" (Some [1%Z]) 1 imgs
           "img/{page}-{index}.png" ltac:(vm_compute; reflexivity)).
Defined.

Lemma renderPage_range (loadedPDFs : Registry) (doc : ImageDoc) (pdfId : string)
    (pageNumber : Z) (dpi : Q) (format : string) (rp : RenderedPage) :
  renderPage loadedPDFs doc pdfId pageNumber dpi format = Ok rp -> (1 <= pageNumber)%Z.
Proof.
  unfold renderPage. destruct (loadedPDFs !! pdfId); [| discriminate].
  destruct (Z.ltb_spec pageNumber 1); [discriminate | lia].
Qed.

(** X24. With an [outputPath], the [render_pages] tool writes one file per
    rendered page, in order, and names the file of the first one as
    "First page saved to"; when no page was rendered it writes nothing,
    yet names the path of page 1. *)
Theorem render_pages_saved_files (loadedPDFs : Registry) (doc : ImageDoc) (pdfId : string)
    (pageNumbers : option (list Z)) (dpi : Q) (format : string) (rps : list RenderedPage)
    (outputPath : string) :
  renderPages loadedPDFs doc pdfId pageNumbers dpi format = Ok rps ->
  map fst (renderPagesSaves outputPath rps)
    = map (fun page => expandPathPattern outputPath [("page", rp_page page)]) rps
  /\ (rps = [] ->
      renderPagesSaves outputPath rps = []
      /\ renderPagesFirstPath outputPath rps = expandPathPattern outputPath [("page", 1%Z)])
  /\ (rps <> [] ->
      head (map fst (renderPagesSaves outputPath rps)) = Some (renderPagesFirstPath outputPath rps)).
Proof.
  unfold renderPages. destruct (loadedPDFs !! pdfId) as [pdf |] eqn:Hl; [| discriminate].
  intros [= Hr].
  split; [unfold renderPagesSaves; rewrite map_map; reflexivity |].
  split; [intros ->; split; reflexivity |].
  intros Hne. destruct rps as [| rp rest]; [contradiction |].
  destruct (renderPagesLoop_spec loadedPDFs doc pdfId pdf dpi format
              (match pageNumbers with Some l => l
                 | None => map (fun i => Z.of_nat i + 1)%Z (seq 0 (Z.to_nat (pageCount pdf))) end))
    as (_ & Hf & _).
  rewrite Hr in Hf. inversion Hf as [| ? ? Hrp _]; subst.
  pose proof (renderPage_range _ _ _ _ _ _ _ Hrp).
  simpl. f_equal. unfold renderPagesFirstPath, js_or.
  destruct (Z.eqb_spec (rp_page rp) 0); [lia | reflexivity].
Qed.

Lemma render_pages_saved_files_witness :
  let rps := [mkRenderedPage 2 612 792 "png" [] 72; mkRenderedPage 3 612 792 "png" [] 72] in
  renderPages sample_registry photo_doc "k" (Some [2%Z; 3%Z]) 72 "png" = Ok rps
  /\ map fst (renderPagesSaves "p{page}.png" rps)
      = map (fun page => expandPathPattern "p{page}.png" [("page", rp_page page)]) rps
  /\ (rps = [] ->
      renderPagesSaves "p{page}.png" rps = []
      /\ renderPagesFirstPath "p{page}.png" rps = expandPathPattern "p{page}.png" [("page", 1%Z)])
  /\ (rps <> [] ->
      head (map fst (renderPagesSaves "p{page}.png" rps)) = Some (renderPagesFirstPath "p{page}.png" rps)).
Proof.
  intros rps. split; [vm_compute; reflexivity |].
  exact (render_pages_saved_files sample_registry photo_doc "k" (Some [2%Z; 3%Z]) 72 "png" rps
           "p{page}.png" ltac:(vm_compute; reflexivity)).
Defined.

(** X25. In a registry whose records sit under the digest of their location,
    with one record per location, [listLoadedPDFs] shows no id twice and
    no location twice. *)
Theorem listLoadedPDFs_distinct (md5_hex : string -> string) (loadedPDFs : Registry) :
  reg_keyed md5_hex loadedPDFs -> one_record_per_location loadedPDFs ->
  NoDup (map sum_id (listLoadedPDFs loadedPDFs))
  /\ NoDup (map sum_path (listLoadedPDFs loadedPDFs)).
Proof.
  intros Hk Hp. unfold listLoadedPDFs. rewrite !map_map. cbn [sum_id sum_path].
  assert (Hin : forall kv, In kv (map_to_list loadedPDFs) -> loadedPDFs !! kv.1 = Some kv.2).
  { intros kv H. apply elem_of_map_to_list'. by apply list_elem_of_In. }
  split; apply NoDup_ListNoDup, NoDup_map_NoDup_ForallPairs;
    try (apply NoDup_ListNoDup, NoDup_map_to_list);
    intros [k1 pdf1] [k2 pdf2] H1 H2 Heq;
    apply Hin in H1, H2; cbn [fst snd] in *.
  - destruct (Hk _ _ H1) as [_ Hi1]. destruct (Hk _ _ H2) as [_ Hi2].
    assert (k1 = k2) as <- by congruence. congruence.
  - assert (k1 = k2) as <- by exact (Hp _ _ _ _ H1 H2 Heq). congruence.
Qed.

Lemma listLoadedPDFs_distinct_witness :
  let reg := snd (loadPDF sample_md5 outline_env "report.pdf"
                    (snd (loadPDF sample_md5 sample_env "doc.pdf" ∅))) in
  map sum_path (listLoadedPDFs reg) = ["report.pdf"; "doc.pdf"]
  /\ NoDup (map sum_id (listLoadedPDFs reg))
  /\ NoDup (map sum_path (listLoadedPDFs reg)).
Proof.
  intros reg. split; [vm_compute; reflexivity |].
  assert (Hreg : reg
    = <[ "md5:report.pdf" := mkLoadedPDF "md5:report.pdf" "report.pdf" 2 ["one"; "two"]
                               (Some [("Title", "Report")])
                               (Some [mkOutlineItem "Intro" (Some 2%Z) 0
                                        (Some [mkOutlineItem "Part" None 1 None])]) ]>
      {[ "md5:doc.pdf" := mkLoadedPDF "md5:doc.pdf" "doc.pdf" 2
                            ["Hello" +:+ nl +:+ "World"; ""] None None ]})
    by (vm_compute; reflexivity).
  apply (listLoadedPDFs_distinct sample_md5); rewrite Hreg.
  - intros k pdf H. apply lookup_insert_Some in H
      as [[<- <-] | [_ H]]; [| apply lookup_singleton_Some in H as [<- <-]];
      split; reflexivity.
  - intros k1 k2 pdf1 pdf2 H1 H2 Hp.
    apply lookup_insert_Some in H1 as [[<- <-] | [_ H1]];
      [| apply lookup_singleton_Some in H1 as [<- <-]];
    (apply lookup_insert_Some in H2 as [[<- <-] | [_ H2]];
      [| apply lookup_singleton_Some in H2 as [<- <-]]);
    first [reflexivity | discriminate Hp].
Defined.
